(** * Gaphor: the profile code generator and the fork/join diagram item

    A shallow embedding of [gaphor/codegen/profile_coder.py] and of the
    [ForkNodeItem] class of [gaphor/diagram/activitynodes.py].

    Python objects are referred to by identity (a number); the loaded model
    is a function from class identities to their attribute values.  A file
    opened for writing is the sequence of strings passed to [f.write]; its
    content is their concatenation.  Exceptions are values of [exn]; the
    recursion of [write_class_def] is bounded by a fuel argument. *)

From stdpp Require Import gmap strings list sorting.
From Stdlib Require Import Ascii String ZArith.

Local Open Scope list_scope.
Local Open Scope string_scope.

#[local] Set Warnings "-clear-no-such-hyp".

(** ** Python values and control flow *)

Inductive exn : Type :=
| ValueError (msg : string)
| KeyError
| IndexError
| UnboundLocalError
| AttributeError.

Inductive result (A : Type) : Type :=
| Ok (a : A)
| Raise (e : exn)
| OutOfFuel.

Arguments Ok {A} a.
Arguments Raise {A} e.
Arguments OutOfFuel {A}.

Definition result_bind {A B : Type} (f : A -> result B) (r : result A) : result B :=
  match r with
  | Ok a => f a
  | Raise e => Raise e
  | OutOfFuel => OutOfFuel
  end.

#[global] Instance result_ret : MRet result := fun A a => Ok a.
#[global] Instance result_mbind : MBind result := fun A B f r => result_bind f r.

(** [for x in xs: body], threading the loop state [s]. *)
Fixpoint for_ {X S : Type} (xs : list X) (body : X -> S -> result S) (s : S) : result S :=
  match xs with
  | [] => Ok s
  | x :: xs' => s' ← body x s; for_ xs' body s'
  end.

(** A list comprehension [[x for x in xs if cond(x)]] whose condition may raise. *)
Fixpoint filter_ {X : Type} (cond : X -> result bool) (xs : list X) : result (list X) :=
  match xs with
  | [] => Ok []
  | x :: xs' =>
      b ← cond x;
      r ← filter_ cond xs';
      Ok (if b : bool then x :: r else r)
  end.

(** [sub in s] on strings. *)
Fixpoint contains (sub s : string) : bool :=
  String.prefix sub s ||
  match s with
  | EmptyString => false
  | String _ s' => contains sub s'
  end.

Definition lower_ascii (c : ascii) : ascii :=
  let n := nat_of_ascii c in
  if (65 <=? n)%nat && (n <=? 90)%nat then ascii_of_nat (n + 32) else c.

(** [s.lower()], on the ASCII letters; the strings that [type_converter]
    compares it with have ASCII letters only. *)
Fixpoint lower (s : string) : string :=
  match s with
  | EmptyString => EmptyString
  | String c s' => String (lower_ascii c) (lower s')
  end.

(** [str(x)] of a value that is a string or [None], as an f-string prints it. *)
Definition str (o : option string) : string := default "None" o.

(** Truth value of a string or [None]. *)
Definition truthy (o : option string) : bool :=
  match o with
  | Some (String _ _) => true
  | _ => false
  end.

(** [sorted(xs, key=key)]: Python's sort is stable, and a stable sort has one
    result, computed here by insertion. *)
Fixpoint insert_sorted {X : Type} (key : X -> string) (x : X) (l : list X) : list X :=
  match l with
  | [] => [x]
  | y :: l' => if String.leb (key x) (key y) then x :: y :: l' else y :: insert_sorted key x l'
  end.

Definition sorted {X : Type} (key : X -> string) (xs : list X) : list X :=
  foldr (insert_sorted key) [] xs.

(** A Python [dict]: keys stay in the order of their first insertion. *)
Definition dict (K V : Type) : Type := list (K * V).

Fixpoint dict_set {K V : Type} `{EqDecision K} (k : K) (v : V) (d : dict K V) : dict K V :=
  match d with
  | [] => [(k, v)]
  | (k', v') :: d' => if decide (k' = k) then (k, v) :: d' else (k', v') :: dict_set k v d'
  end.

Fixpoint dict_find {K V : Type} `{EqDecision K} (k : K) (d : dict K V) : option V :=
  match d with
  | [] => None
  | (k', v) :: d' => if decide (k' = k) then Some v else dict_find k d'
  end.

(** [d[k]] *)
Definition dict_get {K V : Type} `{EqDecision K} (d : dict K V) (k : K) : result V :=
  match dict_find k d with
  | Some v => Ok v
  | None => Raise KeyError
  end.

Definition dict_keys {K V : Type} (d : dict K V) : list K := d.*1.

(** ** The UML elements the generator reads *)

(** A [UML.Class] element, by identity.  The generator reads the name of
    a class as a string ([cls.name[0]], ["Kind" in cls.name]), and so does
    the model; the name of an attribute may be [None]. *)
Definition cls : Type := nat.

Module Association.
Record t : Type := mk {
  (** [association.ownedEnd.class_] *)
  ownedEnd_class_ : cls
}.
End Association.

Module Slot.
Record t : Type := mk {
  (** [slot.definingFeature.name] *)
  definingFeature_name : option string;
  value : option string
}.
End Slot.

Module Opposite.
Record t : Type := mk {
  name : option string;
  (** whether [opposite.class_] is set *)
  class_ : option cls
}.
End Opposite.

Module Property.
Record t : Type := mk {
  name : option string;
  type : option cls;
  typeValue : option string;
  isDerived : bool;
  lowerValue : option string;
  upperValue : option string;
  aggregation : option string;
  opposite : option Opposite.t;
  association : option Association.t;
  (** [appliedStereotype[:].slot] *)
  slot : list Slot.t
}.
End Property.

Module Operation.
Record t : Type := mk {
  name : option string
}.
End Operation.

Module Class.
Record t : Type := mk {
  name : string;
  qualifiedName : list string;
  general : list cls;
  attribute : list Property.t;
  ownedOperation : list Operation.t
}.
End Class.

(** The element store: what each class object holds. *)
Definition Model : Type := cls -> Class.t.

(** A text file open for writing: the strings written so far. *)
Definition TextIO : Type := list string.

Definition write (f : TextIO) (s : string) : TextIO := (f ++ [s])%list.

Definition getvalue (f : TextIO) : string := String.concat EmptyString f.

(** ** profile_coder.py *)

Definition nl : string := String (ascii_of_nat 10) EmptyString.
Definition dquote : string := String (ascii_of_nat 34) EmptyString.

Definition unlines (ls : list string) : string :=
  String.concat EmptyString (map (fun l => l ++ nl) ls).

Definition header : string := unlines [
  "# This file is generated by profile_coder.py. DO NOT EDIT!";
  EmptyString;
  "from __future__ import annotations";
  EmptyString;
  "from gaphor.core.modeling.properties import (";
  "    association,";
  "    attribute,";
  "    enumeration,";
  "    relation_many,";
  "    relation_one,";
  ")"
].

(** Convert association types for Python data model.  A UML element is a
    true value, so [if property.type] asks whether the type is set. *)
Definition type_converter (m : Model) (property : Property.t) : result string :=
  match Property.type property with
  | Some t => Ok (Class.name (m t))
  | None =>
      match Property.typeValue property with
      | None =>
          Raise (ValueError ("ERROR! type is not specified for property "
                             ++ str (Property.name property)))
      | Some type_value =>
          if String.eqb (lower type_value) "boolean" then Ok "int"
          else if String.eqb (lower type_value) "integer"
                  || String.eqb (lower type_value) "unlimitednatural" then Ok "int"
          else if String.eqb (lower type_value) "string"
                  || String.eqb type_value "ValueSpecification" then Ok "str"
          else Ok type_value
      end
  end.

Section Generator.

(** [modeling_language.lookup_element(name)], as a truth value. *)
Variable lookup_element : string -> bool.

(** The builtin [repr] of a string. *)
Variable repr : string -> string.

(** Identify classes that are part of UML. *)
Definition filter_uml_classes (m : Model) (classes : list cls) : list cls :=
  filter (fun c => lookup_element (Class.name (m c)) = true) classes.

(** Filter out enumerations. *)
Definition find_enumerations (m : Model) (classes : list cls)
  : list cls * gmap string cls :=
  let enumerations :=
    foldl (fun d c => <[Class.name (m c) := c]> d) ∅
          (filter (fun c => contains "Kind" (Class.name (m c)) = true) classes) in
  let classes := filter (fun c => contains "Kind" (Class.name (m c)) = false) classes in
  (classes, enumerations).

Definition filter_out_gaphor_profile (m : Model) (classes : list cls) : result (list cls) :=
  filter_ (fun c =>
             match Class.qualifiedName (m c) with
             | [] => Raise IndexError
             | q :: _ => Ok (negb (String.eqb q "Gaphor Profile"))
             end) classes.

(** Get the meta classes connected with extensions. *)
Definition get_class_extensions (m : Model) (c : cls) : list cls :=
  omap (fun a =>
          match Property.association a with
          | Some assoc =>
              if bool_decide (Property.name a = Some "baseClass")
              then Some (Association.ownedEnd_class_ assoc)
              else None
          | None => None
          end) (Class.attribute (m c)).

(** Create a tree of UML.Class elements. *)
Definition create_class_hierarchy (m : Model) (classes : list cls) : dict cls (list cls) :=
  foldl (fun hierarchy c =>
           let base_classes := Class.general (m c) in
           let meta_classes := get_class_extensions m c in
           dict_set c (sorted (fun e => Class.name (m e)) (base_classes ++ meta_classes)%list)
                    hierarchy)
        [] classes.

(** [a.name or ""] *)
Definition name_or_empty (a : Property.t) : string := default EmptyString (Property.name a).

(** [not a.name or a.name == "baseClass" or a.isDerived] *)
Definition skipped (a : Property.t) : bool :=
  negb (truthy (Property.name a))
  || bool_decide (Property.name a = Some "baseClass")
  || Property.isDerived a.

Definition attribute_line (a : Property.t) (type_value : string) : string :=
  if bool_decide (type_value = "int") || bool_decide (type_value = "str")
  then "    " ++ str (Property.name a) ++ ": attribute[" ++ type_value ++ "]" ++ nl
  else if contains "Kind" type_value
  then "    " ++ str (Property.name a) ++ ": enumeration" ++ nl
  else if bool_decide (Property.upperValue a = Some "1")
  then "    " ++ str (Property.name a) ++ ": relation_one[" ++ type_value ++ "]" ++ nl
  else "    " ++ str (Property.name a) ++ ": relation_many[" ++ type_value ++ "]" ++ nl.

(** Write attributes based on attribute type. *)
Definition write_attributes (m : Model) (c : cls) (f : TextIO) : result TextIO :=
  '(f, written) ←
    for_ (sorted name_or_empty (Class.attribute (m c)))
         (fun a '(f, written) =>
            if skipped a then Ok (f, written)
            else
              type_value ← type_converter m a;
              if truthy (Some type_value)
              then Ok (write f (attribute_line a type_value), true)
              else Ok (f, written))
         (f, false);
  '(f, written) ←
    for_ (Class.ownedOperation (m c))
         (fun o '(f, written) =>
            Ok (write f ("    " ++ str (Operation.name o) ++ ": operation" ++ nl), true))
         (f, written);
  Ok (if written : bool then f else write f ("    pass" ++ nl ++ nl)).

Definition class_line (m : Model) (c : cls) (generalizations : list cls) : string :=
  "class " ++ Class.name (m c) ++ "("
  ++ String.concat ", " (map (fun g => Class.name (m g)) generalizations)
  ++ "):" ++ nl.

(** Write the Class definition. *)
Fixpoint write_class_def (fuel : nat) (m : Model) (c : cls)
    (hierarchy : dict cls (list cls)) (f : TextIO) (cls_written : gset cls)
    {struct fuel} : result (TextIO * gset cls) :=
  match fuel with
  | O => OutOfFuel
  | S fuel' =>
      if decide (c ∈ cls_written) then Ok (f, cls_written)
      else
        generalizations ← dict_get hierarchy c;
        '(f, cls_written) ←
          for_ generalizations
               (fun g '(f, cls_written) => write_class_def fuel' m g hierarchy f cls_written)
               (f, cls_written);
        let f := write f (class_line m c generalizations) in
        f ← write_attributes m c f;
        Ok (f, {[c]} ∪ cls_written)
  end.

(** The [repr] of a tuple of names. *)
Definition repr_name (o : option string) : string :=
  match o with
  | Some s => repr s
  | None => "None"
  end.

Definition repr_tuple (values : list (option string)) : string :=
  match values with
  | [v] => "(" ++ repr_name v ++ ",)"
  | _ => "(" ++ String.concat ", " (map repr_name values) ++ ")"
  end.

Definition association_line (m : Model) (c : cls) (a : Property.t) (type_value : string) : string :=
  let lower :=
    if bool_decide (Property.lowerValue a = None) || bool_decide (Property.lowerValue a = Some "0")
    then EmptyString else ", lower=" ++ str (Property.lowerValue a) in
  let upper :=
    if bool_decide (Property.upperValue a = Some "*") then EmptyString
    else ", upper=" ++ (if truthy (Property.upperValue a) then str (Property.upperValue a) else "1") in
  let composite :=
    if bool_decide (Property.aggregation a = Some "composite") then ", composite=True"
    else EmptyString in
  let opposite :=
    match Property.opposite a with
    | Some o =>
        if truthy (Opposite.name o) && bool_decide (is_Some (Opposite.class_ o))
        then ", opposite=" ++ dquote ++ str (Opposite.name o) ++ dquote
        else EmptyString
    | None => EmptyString
    end in
  Class.name (m c) ++ "." ++ str (Property.name a) ++ " = association(" ++ dquote
  ++ str (Property.name a) ++ dquote ++ ", " ++ type_value
  ++ lower ++ upper ++ composite ++ opposite ++ ")" ++ nl.

(** One turn of the loop of [write_properties]; [values] is the local
    variable of that name, [None] while it is unbound. *)
Definition write_property (m : Model) (c : cls) (enumerations : gmap string cls)
    (a : Property.t) (st : TextIO * option (list (option string)))
  : result (TextIO * option (list (option string))) :=
  let '(f, values) := st in
  if skipped a then Ok (f, values)
  else
    type_value ← type_converter m a;
    if bool_decide (type_value = "int") || bool_decide (type_value = "str")
    then Ok (write f (Class.name (m c) ++ "." ++ str (Property.name a) ++ " = attribute("
                      ++ dquote ++ str (Property.name a) ++ dquote ++ ", " ++ type_value
                      ++ ")" ++ nl), values)
    else if negb (truthy (Some type_value)) then Ok (f, values)
    else if contains "Kind" type_value
    then
      let values :=
        match enumerations !! type_value with
        | Some enum => Some (map Property.name (Class.attribute (m enum)))
        | None => values
        end in
      match values with
      | None => Raise UnboundLocalError
      | Some [] => Raise IndexError
      | Some (v0 :: vs) =>
          Ok (write f (Class.name (m c) ++ "." ++ str (Property.name a) ++ " = enumeration("
                       ++ dquote ++ str (Property.name a) ++ dquote ++ ", "
                       ++ repr_tuple (v0 :: vs) ++ ", " ++ dquote ++ str v0 ++ dquote
                       ++ ")" ++ nl), values)
      end
    else Ok (write f (association_line m c a type_value), values).

Definition write_properties (m : Model) (c : cls) (f : TextIO)
    (enumerations : gmap string cls) : result TextIO :=
  '(f, _) ← for_ (Class.attribute (m c)) (write_property m c enumerations) (f, None);
  Ok f.

Definition write_subsets (m : Model) (c : cls) (f : TextIO) : TextIO :=
  foldl (fun f a =>
           foldl (fun f slot =>
                    if bool_decide (Slot.definingFeature_name slot = Some "subsets")
                    then write f (Class.name (m c) ++ "." ++ str (Slot.value slot)
                                  ++ ".subsets.add(" ++ Class.name (m c) ++ "."
                                  ++ str (Property.name a)
                                  ++ ")  # type: ignore[attr-defined]" ++ nl)
                    else f)
                 f (Property.slot a))
        f (Class.attribute (m c)).

(** [cls.attribute.sort(key=lambda a: a.name or "")]: sorts the list held
    by the class object in place. *)
Definition sort_attribute (m : Model) (c : cls) : Model :=
  fun c' =>
    if decide (c' = c)
    then Class.mk (Class.name (m c)) (Class.qualifiedName (m c)) (Class.general (m c))
                  (sorted name_or_empty (Class.attribute (m c)))
                  (Class.ownedOperation (m c))
    else m c'.

(** The classes [generate] keeps: neither enumerations, nor of the Gaphor
    profile, nor named with a leading tilde; sorted by name. *)
Definition select_classes (m : Model) (classes : list cls)
  : result (list cls * gmap string cls) :=
  let '(classes, enumerations) := find_enumerations m classes in
  classes ← filter_out_gaphor_profile m classes;
  classes ← filter_ (fun c =>
                       match Class.name (m c) with
                       | EmptyString => Raise IndexError
                       | String c0 _ => Ok (negb (Ascii.eqb c0 "~"))
                       end) classes;
  Ok (sorted (fun c => Class.name (m c)) classes, enumerations).

(** Generates the Python data model from the classes of the loaded model,
    [element_factory.lselect(UML.Class)]; the result is the content of
    [outfile].  The model is shut down at the end. *)
Definition generate (fuel : nat) (m : Model) (classes : list cls) : result TextIO :=
  '(classes, enumerations) ← select_classes m classes;
  let hierarchy := create_class_hierarchy m classes in
  let uml_classes := filter_uml_classes m classes in
  let f := write [] header in
  let f := foldl (fun f c => write f ("from gaphor.UML import " ++ Class.name (m c) ++ nl))
                 f uml_classes in
  let cls_written : gset cls := list_to_set uml_classes in
  '(m, f, cls_written) ←
    for_ (dict_keys hierarchy)
         (fun c '(m, f, cls_written) =>
            let m := sort_attribute m c in
            '(f, cls_written) ← write_class_def fuel m c hierarchy f cls_written;
            Ok (m, f, cls_written))
         (m, f, cls_written);
  let f := write f (nl ++ nl) in
  f ← for_ (dict_keys hierarchy) (fun c f => write_properties m c f enumerations) f;
  let f := foldl (fun f c => write_subsets m c f) f (dict_keys hierarchy) in
  Ok f.

End Generator.

(** ** activitynodes.py: ForkNodeItem *)

Module ActivityNodes.

Definition DEFAULT_JOIN_SPEC : string := "and".

(** A gaphas [Variable] (a coordinate of a handle), by identity. *)
Definition Var : Type := nat.

Record Handle : Type := mkHandle {
  x : Var;
  y : Var
}.

Inductive Constraint : Type :=
| EqualsConstraint (a b : Var)
| LessThanConstraint (smaller bigger : Var) (delta : Z).

(** A constraint object: its identity and what it constrains. *)
Definition ConstraintObj : Type := nat * Constraint.

Record LiteralSpecification : Type := mkLiteralSpecification {
  value : option string
}.

(** The subject of the item; only a [UML.JoinNode] has a [joinSpec]. *)
Inductive Subject : Type :=
| ForkNode
| JoinNode (joinSpec : option LiteralSpecification).

Record ForkNodeItem : Type := mkForkNodeItem {
  _handles : list Handle;
  _constraints : list ConstraintObj;
  _join_spec_text : option string;
  subject : option Subject
}.

(** The item, the constraints held by [self.canvas.solver] (a set of
    objects) and the identity of the next object to be created. *)
Record World : Type := mkWorld {
  self : ForkNodeItem;
  solver_constraints : list ConstraintObj;
  next_id : nat
}.

Definition set_self (w : World) (it : ForkNodeItem) : World :=
  mkWorld it (solver_constraints w) (next_id w).


(** [Solver.remove_constraint]: discard from the set. *)
Definition remove_constraint (c : ConstraintObj) (w : World) : World :=
  mkWorld (self w) (filter (fun c' => c'.1 ≠ c.1) (solver_constraints w)) (next_id w).


Definition getattr_joinSpec (s : Subject) : result (option LiteralSpecification) :=
  match s with
  | ForkNode => Raise AttributeError
  | JoinNode joinSpec => Ok joinSpec
  end.

(** [x.value] where [x] is a literal specification or [None]. *)
Definition getattr_value (x : option LiteralSpecification) : result (option string) :=
  match x with
  | Some l => Ok (value l)
  | None => Raise AttributeError
  end.

Section ForkNodeItem.

(** The methods of the base classes [Item] and [DiagramItem]. *)
Variable Item_setup_canvas : World -> World.
Variable Item_teardown_canvas : World -> World.
Variable DiagramItem_on_subject_notify : World -> World.
Variable request_update : World -> World.


Definition teardown_canvas (w : World) : World :=
  let w := Item_teardown_canvas w in
  foldl (fun w c => remove_constraint c w) w (_constraints (self w)).

(** Check if join specification should be displayed. *)
Definition is_join_spec_visible (it : ForkNodeItem) : bool :=
  match subject it with
  | Some (JoinNode (Some l)) => negb (bool_decide (value l = Some DEFAULT_JOIN_SPEC))
  | _ => false
  end.

(** Set join specification. *)
Definition set_join_spec (v : option string) (w : World) : World :=
  let it := self w in
  match subject it with
  | Some (JoinNode joinSpec) =>
      let v := if truthy v then v else Some DEFAULT_JOIN_SPEC in
      set_self w (mkForkNodeItem (_handles it) (_constraints it) v
                                 (Some (JoinNode (Some (mkLiteralSpecification v)))))
  | _ => w
  end.

(** Detect changes of subject. *)
Definition on_subject_notify (w : World) : result World :=
  let w := DiagramItem_on_subject_notify w in
  cond ←
    match subject (self w) with
    | None => Ok false
    | Some s =>
        joinSpec ← getattr_joinSpec s;
        if bool_decide (is_Some joinSpec) then Ok false
        else
          joinSpec ← getattr_joinSpec s;
          v ← getattr_value joinSpec;
          Ok (negb (truthy v))
    end;
  let w := if cond : bool then set_join_spec (Some DEFAULT_JOIN_SPEC) w else w in
  Ok (request_update w).

End ForkNodeItem.

End ActivityNodes.

(** ** A small model, used to run the definitions *)

Definition simple_repr (s : string) : string := "'" ++ s ++ "'".

Definition is_uml (s : string) : bool := String.eqb s "Class".

Definition attr (n : string) (type_value : option string) : Property.t :=
  Property.mk (Some n) None type_value false None None None None None [].

(** A block with a UML base class, two unrelated classes of which the first
    by name specializes the second, and an enumeration. *)
Definition demo : Model := fun c =>
  match c with
  | 0 => Class.mk "Block" ["SysML"; "Block"] [1]
           [attr "zeta" (Some "String"); attr "alpha" (Some "Integer");
            attr "k" (Some "FooKind"); attr "k2" (Some "BarKind")] []
  | 1 => Class.mk "Class" ["UML"; "Class"] [] [] []
  | 2 => Class.mk "Abc" ["Abc"] [3] [] []
  | 3 => Class.mk "Zed" ["Zed"] [] [] []
  | 4 => Class.mk "FooKind" ["FooKind"] []
           [attr "x" (Some "String"); attr "y" (Some "String")] []
  | 5 => Class.mk "Untyped" ["Untyped"] [] [attr "u" None] []
  | _ => Class.mk "Other" ["Other"] [] [] []
  end.

(** What [generate] writes for the small model. *)
Definition demo_output : TextIO :=
  Eval vm_compute in
    match generate is_uml simple_repr 3 demo [0; 1; 2; 3; 4] with
    | Ok f => f
    | _ => []
    end.


(** A fork node item with its two handles, for a join node without join
    specification, on an empty canvas. *)
Definition fork_world : ActivityNodes.World :=
  ActivityNodes.mkWorld
    (ActivityNodes.mkForkNodeItem [ActivityNodes.mkHandle 0 1; ActivityNodes.mkHandle 2 3]
                                  [] None (Some (ActivityNodes.JoinNode None)))
    [] 0.

(** * Vocabulary of the properties *)

(** The order of [sorted]: by key. *)
Definition by_key {X : Type} (key : X -> string) : relation X :=
  fun a b => String.le (key a) (key b).

(** The value [create_class_hierarchy] stores under a class. *)
Definition parents (m : Model) (c : cls) : list cls :=
  sorted (fun e => Class.name (m e)) (Class.general (m c) ++ get_class_extensions m c)%list.

(** What [generate] keeps of a class: its name has no Kind in it, its
    qualified name does not start with Gaphor Profile, its name does not
    begin with a tilde. *)
Definition kept (m : Model) (c : cls) : Prop :=
  contains "Kind" (Class.name (m c)) = false /\
  head (Class.qualifiedName (m c)) ≠ Some "Gaphor Profile" /\
  String.prefix "~" (Class.name (m c)) = false.

(** Whether a class is kept can be computed. *)
#[global] Instance kept_dec (m : Model) (c : cls) : Decision (kept m c).
Proof. unfold kept. apply _. Defined.

(** The results of [g] on the elements of [xs], up to the first that
    raises. *)
Fixpoint mapM {X Y : Type} (g : X -> result Y) (xs : list X) : result (list Y) :=
  match xs with
  | [] => Ok []
  | x :: xs' => y ← g x; ys ← mapM g xs'; Ok (y :: ys)
  end.

(** The line of an attribute, if it gets one. *)
Definition attribute_chunk (m : Model) (a : Property.t) : result (list string) :=
  if skipped a then Ok []
  else
    type_value ← type_converter m a;
    Ok (if truthy (Some type_value) then [attribute_line a type_value] else []).

(** The line of an operation. *)
Definition operation_line (o : Operation.t) : string :=
  "    " ++ str (Operation.name o) ++ ": operation" ++ nl.

(** The lines under the class line of a class definition. *)
Definition class_body (m : Model) (c : cls) : result (list string) :=
  chunks ← mapM (attribute_chunk m) (sorted name_or_empty (Class.attribute (m c)));
  let ls := (List.concat chunks ++ map operation_line (Class.ownedOperation (m c)))%list in
  Ok (match ls with
      | [] => ["    pass" ++ nl ++ nl]
      | _ => ls
      end).

(** Whether a list has an element. *)
Definition nonempty {X : Type} (l : list X) : bool :=
  match l with
  | [] => false
  | _ => true
  end.

(** The loop of [write_class_def] over the generalizations of a class. *)
Definition generalizations_loop (fuel : nat) (m : Model) (h : dict cls (list cls))
    (gens : list cls) (st : TextIO * gset cls) : result (TextIO * gset cls) :=
  for_ gens (fun g '(f, cls_written) => write_class_def fuel m g h f cls_written) st.

(** Classes that wait for one another: each class of [S] is unwritten and
    has a generalization in [S], or the class [c] that is about to be
    visited. *)
Definition blocked (h : dict cls (list cls)) (S : cls -> Prop) (c : cls) (W : gset cls) : Prop :=
  forall s, S s -> (s ∉ W) /\ exists ps g, dict_find s h = Some ps /\ g ∈ ps /\ (S g \/ g = c).

(** The definition of a class, as it stands in the output. *)
Definition class_def (m : Model) (h : dict cls (list cls)) (c : cls) : result TextIO :=
  generalizations ← dict_get h c;
  body ← class_body m c;
  Ok (class_line m c generalizations :: body).

(** The definitions of the classes of [order], one after the other. *)
Fixpoint class_defs (m : Model) (h : dict cls (list cls)) (order : list cls) : result TextIO :=
  match order with
  | [] => Ok []
  | c :: order' =>
      d ← class_def m h c;
      ds ← class_defs m h order';
      Ok (d ++ ds)%list
  end.

(** [g] is one of the classes the hierarchy holds for [c]. *)
Definition generalization (h : dict cls (list cls)) (c g : cls) : Prop :=
  exists ps, dict_find c h = Some ps /\ g ∈ ps.

(** Each class of [order] comes after its generalizations, but for those
    in [W]. *)
Definition after_generalizations (h : dict cls (list cls)) (W : gset cls)
    (order : list cls) : Prop :=
  forall l1 x l2 ps g,
    order = (l1 ++ x :: l2)%list -> dict_find x h = Some ps -> g ∈ ps -> g ∈ W \/ g ∈ l1.

(** From the file [f] and the written set [W], the definitions of the
    classes of [order] are written, which gives [f'] and [W']. *)
Definition emits (m : Model) (h : dict cls (list cls)) (W : gset cls) (f : TextIO)
    (order : list cls) (f' : TextIO) (W' : gset cls) : Prop :=
  (exists defs, class_defs m h order = Ok defs /\ f' = (f ++ defs)%list) /\
  W' = list_to_set order ∪ W /\
  NoDup order /\
  (forall x, x ∈ order -> x ∉ W) /\
  after_generalizations h W order.

(** Two states of the model that differ in the order of attributes only,
    and have the same attributes in sorted order. *)
Definition same_classes (m m' : Model) : Prop :=
  forall c, Class.name (m' c) = Class.name (m c) /\
            Class.general (m' c) = Class.general (m c) /\
            sorted name_or_empty (Class.attribute (m' c))
            = sorted name_or_empty (Class.attribute (m c)) /\
            Class.ownedOperation (m' c) = Class.ownedOperation (m c).

(** The line that imports a UML class. *)
Definition import_line (m : Model) (c : cls) : string :=
  "from gaphor.UML import " ++ Class.name (m c) ++ nl.

(** The first loop over the keys of the hierarchy. *)
Definition classes_loop (fuel : nat) (h : dict cls (list cls))
    (keys : list cls) (st : Model * TextIO * gset cls) : result (Model * TextIO * gset cls) :=
  for_ keys
       (fun c '(m, f, cls_written) =>
          let m := sort_attribute m c in
          '(f, cls_written) ← write_class_def fuel m c h f cls_written;
          Ok (m, f, cls_written))
       st.

(** The definitions written for one key: none, or some that end with the
    one of the key. *)
Definition batch_of (h : dict cls (list cls)) (k : cls) (b : list cls) : Prop :=
  (b = [] \/ exists gs, b = (gs ++ [k])%list) /\
  forall x, x ∈ b -> rtc (generalization h) k x.

(** The shape of the file [f] that [generate] writes for the classes [cs]
    it keeps: the header, the imports of the UML classes, the definitions of
    the classes of the batches, two line ends, and the properties. *)
Definition generated (lookup_element : string -> bool) (m : Model) (cs : list cls)
    (batches : list (list cls)) (f : TextIO) : Prop :=
  let h := create_class_hierarchy m cs in
  let uml_classes := filter_uml_classes lookup_element m cs in
  let order := List.concat batches in
  (exists defs rest,
     class_defs m h order = Ok defs /\
     f = (header :: map (import_line m) uml_classes ++ defs ++ (nl ++ nl)%string :: rest)%list) /\
  NoDup order /\
  (forall x, x ∈ order <-> x ∈ cs /\ x ∉ uml_classes) /\
  after_generalizations h (list_to_set uml_classes) order /\
  Forall2 (batch_of h) (dict_keys h) batches.

(** An attribute that gets a line, with the type written in it. *)
Definition attribute_entry (m : Model) (a : Property.t) : option (Property.t * string) :=
  if skipped a then None
  else match type_converter m a with
       | Ok type_value => if truthy (Some type_value) then Some (a, type_value) else None
       | _ => None
       end.





(** The computation has ended, normally or with an exception. *)
Definition returns {A : Type} (r : result A) : Prop := r ≠ OutOfFuel.

(** A class on which the filter step of [generate] fails: it is no
    enumeration, and its qualified name is empty, or it is outside the Gaphor
    profile and its name is empty. *)
Definition unreadable (m : Model) (c : cls) : Prop :=
  contains "Kind" (Class.name (m c)) = false /\
  (Class.qualifiedName (m c) = [] \/
   head (Class.qualifiedName (m c)) ≠ Some "Gaphor Profile" /\ Class.name (m c) = EmptyString).

(** Whether the filter step fails on a class can be computed. *)
#[global] Instance unreadable_dec (m : Model) (c : cls) : Decision (unreadable m c).
Proof. unfold unreadable. apply _. Defined.

(** From [c] to [x] along generalizations, through classes that are not
    in [W]; both ends count. *)
Inductive unwritten_path (h : dict cls (list cls)) (W : gset cls) : cls -> cls -> Prop :=
| unwritten_here (c : cls) : c ∉ W -> unwritten_path h W c c
| unwritten_step (c g x : cls) :
    c ∉ W -> generalization h c g -> unwritten_path h W g x -> unwritten_path h W c x.

(** Every class the hierarchy holds for a key is a key itself, or in [W]. *)
Definition closed (h : dict cls (list cls)) (W : gset cls) : Prop :=
  forall c g, generalization h c g -> g ∈ dict_keys h \/ g ∈ W.

(** A rank for the small model: the two classes that specialize another. *)
Definition demo_rank (c : cls) : nat :=
  match c with
  | 0 | 2 => 1
  | _ => 0
  end.

(** The model after [generate] has sorted, in place, the attributes of the
    classes of [keys]. *)
Definition sorted_model (m : Model) (keys : list cls) : Model :=
  foldl sort_attribute m keys.

(** * Properties *)

(** ** Control flow *)

Lemma bind_Ok {A B : Type} (r : result A) (k : A -> result B) (b : B) :
  r ≫= k = Ok b -> exists a, r = Ok a /\ k a = Ok b.
Proof. destruct r as [a| |]; simpl; intros H; try discriminate. by exists a. Qed.

Lemma bind_Raise {A B : Type} (r : result A) (k : A -> result B) (e : exn) :
  r ≫= k = Raise e -> r = Raise e \/ exists a, r = Ok a /\ k a = Raise e.
Proof.
  destruct r as [a|e'|]; simpl; intros H; try discriminate.
  - right. by exists a.
  - left. by inversion H.
Qed.

Ltac rsimpl := cbn [mbind result_mbind result_bind mret result_ret].
Tactic Notation "rsimpl" "in" hyp(H) :=
  cbn [mbind result_mbind result_bind mret result_ret] in H.

(** A loop that ends normally establishes whatever each turn preserves. *)
Lemma for_invariant {X S : Type} (P : S -> Prop) (xs : list X)
    (body : X -> S -> result S) (s s' : S) :
  (forall x t t', x ∈ xs -> P t -> body x t = Ok t' -> P t') ->
  P s -> for_ xs body s = Ok s' -> P s'.
Proof.
  revert s. induction xs as [|x xs IH]; intros s Hbody Hs Hrun; simpl in Hrun.
  - by inversion Hrun; subst.
  - apply bind_Ok in Hrun as (t & Ht & Hrun).
    apply (IH t); [|by eapply Hbody; [left| |]|done].
    intros y u u' Hy. apply Hbody. by right.
Qed.

(** A loop that raises does so in one of its turns, from a state that the
    turns before it have led to. *)
Lemma for_Raise {X S : Type} (P : S -> Prop) (xs : list X) (body : X -> S -> result S)
    (s : S) (e : exn) :
  (forall x t t', x ∈ xs -> P t -> body x t = Ok t' -> P t') ->
  P s -> for_ xs body s = Raise e -> exists x t, x ∈ xs /\ P t /\ body x t = Raise e.
Proof.
  revert s. induction xs as [|x xs IH]; intros s Hbody Hs Hrun; simpl in Hrun; [done|].
  apply bind_Raise in Hrun as [Hx | (t & Ht & Hrun)].
  - exists x, s. split; [left|done].
  - destruct (IH t) as (y & u & Hy & Hu & Hrun'); [| |done|].
    + intros y u u' Hy. apply Hbody. by right.
    + eapply Hbody; [left|exact Hs|exact Ht].
    + exists y, u. split; [by right|done].
Qed.

Lemma filter_Raise {X : Type} (cond : X -> result bool) (xs : list X) (e : exn) :
  filter_ cond xs = Raise e -> exists x, x ∈ xs /\ cond x = Raise e.
Proof.
  induction xs as [|x xs IH]; intros Hrun; simpl in Hrun; [done|].
  apply bind_Raise in Hrun as [Hx | (b & _ & Hrun)].
  - exists x. split; [left|done].
  - apply bind_Raise in Hrun as [Hr | (r & _ & Hrun)]; [|done].
    destruct (IH Hr) as (y & Hy & Hcond). exists y. split; [by right|done].
Qed.

Lemma filter_Ok_filter {X : Type} (cond : X -> result bool) (p : X -> bool)
    (xs ys : list X) :
  filter_ cond xs = Ok ys ->
  (forall x b, x ∈ xs -> cond x = Ok b -> p x = b) ->
  ys = filter (fun x => p x = true) xs.
Proof.
  revert ys. induction xs as [|x xs IH]; intros ys Hrun Hp; simpl in Hrun.
  - by inversion Hrun.
  - apply bind_Ok in Hrun as (b & Hb & Hrun).
    apply bind_Ok in Hrun as (r & Hr & Hrun).
    rewrite (IH r Hr) in Hrun by (intros y c Hy; apply Hp; by right).
    inversion Hrun; subst ys; clear Hrun.
    rewrite filter_cons. rewrite (Hp x b) by (done || left).
    by destruct b.
Qed.

(** ** [sorted] *)

Section Sorted.
Context {X : Type} (key : X -> string).

#[local] Instance by_key_trans : Transitive (by_key key).
Proof. intros a b c. unfold by_key. apply transitivity. Qed.

Lemma leb_false_le (s t : string) : String.leb s t = false -> String.le t s.
Proof.
  intros H. destruct (total String.le s t) as [Hst|]; [|done].
  unfold String.le in Hst. rewrite H in Hst. done.
Qed.

Lemma insert_sorted_perm (a : X) (l : list X) : insert_sorted key a l ≡ₚ a :: l.
Proof.
  induction l as [|b l IH]; simpl; [done|].
  destruct (String.leb (key a) (key b)); [done|].
  rewrite IH. apply Permutation_swap.
Qed.

Lemma sorted_perm (l : list X) : sorted key l ≡ₚ l.
Proof.
  induction l as [|a l IH]; simpl; [done|].
  fold (sorted key l). by rewrite insert_sorted_perm, IH.
Qed.

Lemma elem_of_sorted (a : X) (l : list X) : a ∈ sorted key l <-> a ∈ l.
Proof. by rewrite sorted_perm. Qed.

Lemma insert_sorted_StronglySorted (a : X) (l : list X) :
  StronglySorted (by_key key) l -> StronglySorted (by_key key) (insert_sorted key a l).
Proof.
  induction 1 as [|b l Hl IH Hb]; simpl; [by repeat constructor|].
  destruct (String.leb (key a) (key b)) eqn:Hab.
  - constructor; [by constructor|].
    assert ((by_key key) a b) as Hab' by (unfold by_key, String.le; by rewrite Hab).
    constructor; [done|].
    eapply Forall_impl; [exact Hb|]. intros c Hc. by etrans.
  - constructor; [done|].
    rewrite insert_sorted_perm. constructor; [|done].
    by apply leb_false_le.
Qed.

Lemma sorted_StronglySorted (l : list X) : StronglySorted (by_key key) (sorted key l).
Proof.
  induction l as [|a l IH]; simpl; [constructor|].
  by apply insert_sorted_StronglySorted.
Qed.

(** Sorting leaves a sorted list as it is. *)
Lemma sorted_fixed (l : list X) : StronglySorted (by_key key) l -> sorted key l = l.
Proof.
  induction 1 as [|a l Hl IH Ha]; simpl; [done|].
  fold (sorted key l). rewrite IH.
  destruct l as [|b l]; simpl; [done|].
  apply Forall_cons in Ha as [Hab _].
  unfold by_key, String.le in Hab.
  by destruct (String.leb (key a) (key b)).
Qed.

Lemma sorted_idemp (l : list X) : sorted key (sorted key l) = sorted key l.
Proof. apply sorted_fixed, sorted_StronglySorted. Qed.

(** The sort is stable: elements with one key keep their order. *)
Lemma insert_sorted_filter (k : string) (a : X) (l : list X) :
  StronglySorted (by_key key) l ->
  filter (fun b => key b = k) (insert_sorted key a l)
  = filter (fun b => key b = k) (a :: l).
Proof.
  induction 1 as [|b l Hl IH Hb]; simpl; [done|].
  destruct (String.leb (key a) (key b)) eqn:Hab; [done|].
  rewrite (filter_cons _ b), IH, !(filter_cons _ a), (filter_cons _ b).
  destruct (decide (key a = k)) as [Ha|]; [|done].
  destruct (decide (key b = k)) as [Hb'|]; [|done].
  rewrite Ha, Hb' in Hab.
  assert (String.le k k) as Hkk by done.
  unfold String.le in Hkk. by rewrite Hab in Hkk.
Qed.

Lemma sorted_stable (k : string) (l : list X) :
  filter (fun b => key b = k) (sorted key l) = filter (fun b => key b = k) l.
Proof.
  induction l as [|a l IH]; simpl; [done|].
  fold (sorted key l).
  rewrite insert_sorted_filter by apply sorted_StronglySorted.
  by rewrite !filter_cons, IH.
Qed.

(** Two sorted lists in which the elements of each key are the same, and in
    the same order, are equal: a stable sort has one result. *)
Lemma stable_sort_unique (l1 l2 : list X) :
  StronglySorted (by_key key) l1 -> StronglySorted (by_key key) l2 ->
  (forall k, filter (fun b => key b = k) l1 = filter (fun b => key b = k) l2) ->
  l1 = l2.
Proof.
  intros H1. revert l2. induction H1 as [|a l1 Hl1 IH Ha]; intros l2 H2 Hk.
  - destruct l2 as [|b l2]; [done|]. specialize (Hk (key b)).
    rewrite filter_nil in Hk. rewrite filter_cons_True in Hk by done. discriminate Hk.
  - destruct H2 as [|b l2 Hl2 Hb].
    { specialize (Hk (key a)). rewrite filter_nil in Hk.
      rewrite filter_cons_True in Hk by done. discriminate Hk. }
    assert (String.le (key b) (key a)) as Hba.
    { pose proof (Hk (key a)) as Hka. rewrite filter_cons_True in Hka by done.
      assert (a ∈ filter (fun b0 => key b0 = key a) (b :: l2)) as Hin
        by (rewrite <- Hka; left).
      apply list_elem_of_filter in Hin as [_ [->|Hin]%elem_of_cons]; [done|].
      rewrite Forall_forall in Hb. by apply Hb. }
    assert (String.le (key a) (key b)) as Hab.
    { pose proof (Hk (key b)) as Hkb. rewrite (filter_cons_True _ b) in Hkb by done.
      assert (b ∈ filter (fun b0 => key b0 = key b) (a :: l1)) as Hin
        by (rewrite Hkb; left).
      apply list_elem_of_filter in Hin as [_ [->|Hin]%elem_of_cons]; [done|].
      rewrite Forall_forall in Ha. by apply Ha. }
    assert (key a = key b) as Hkey by (by apply (anti_symm String.le)).
    pose proof (Hk (key a)) as Hka.
    rewrite filter_cons_True, filter_cons_True in Hka by done.
    inversion Hka; subst b. f_equal. apply IH; [done|]. intros k.
    specialize (Hk k). rewrite !filter_cons in Hk.
    destruct (decide (key a = k)); [by inversion Hk|done].
Qed.

Lemma sorted_unique (l l' : list X) :
  StronglySorted (by_key key) l' ->
  (forall k, filter (fun b => key b = k) l' = filter (fun b => key b = k) l) ->
  l' = sorted key l.
Proof.
  intros Hs Hk. apply stable_sort_unique; [done|apply sorted_StronglySorted|].
  intros k. by rewrite Hk, sorted_stable.
Qed.

End Sorted.

(** ** [dict] *)

Section Dict.
Context {K V : Type} `{EqDecision K}.
Implicit Types (d : dict K V) (k : K) (v : V).

Lemma dict_find_set_eq k v d : dict_find k (dict_set k v d) = Some v.
Proof.
  induction d as [|[k' v'] d IH]; simpl.
  - by rewrite decide_True.
  - destruct (decide (k' = k)); simpl; [by rewrite decide_True|].
    by rewrite decide_False.
Qed.

Lemma dict_find_set_ne k k' v d : k ≠ k' -> dict_find k' (dict_set k v d) = dict_find k' d.
Proof.
  intros Hne. induction d as [|[k0 v0] d IH]; simpl.
  - by rewrite decide_False.
  - destruct (decide (k0 = k)) as [->|]; simpl.
    + by rewrite !decide_False.
    + by rewrite IH.
Qed.

Lemma dict_keys_set k v d :
  dict_keys (dict_set k v d)
  = if decide (k ∈ dict_keys d) then dict_keys d else (dict_keys d ++ [k])%list.
Proof.
  unfold dict_keys. induction d as [|[k0 v0] d IH].
  - destruct (decide (k ∈ _)) as [Hin|Hin]; [by apply elem_of_nil in Hin|done].
  - cbn [dict_set]. rewrite (fmap_cons fst). cbn [fst].
    destruct (decide (k0 = k)) as [->|Hne].
    + rewrite decide_True; [done|]. left.
    + rewrite (fmap_cons fst), IH. cbn [fst].
      destruct (decide (k ∈ d.*1)) as [Hin|Hin].
      * rewrite decide_True; [done|]. by right.
      * rewrite decide_False; [done|].
        intros [->|?]%elem_of_cons; [done|]. by apply Hin.
Qed.

Lemma elem_of_dict_keys_set k k' v d :
  k' ∈ dict_keys (dict_set k v d) <-> k' = k \/ k' ∈ dict_keys d.
Proof.
  rewrite dict_keys_set. destruct (decide (k ∈ dict_keys d)).
  - split; [by right|]. by intros [->|?].
  - rewrite elem_of_app, list_elem_of_singleton. tauto.
Qed.

Lemma NoDup_dict_keys_set k v d : NoDup (dict_keys d) -> NoDup (dict_keys (dict_set k v d)).
Proof.
  intros Hd. rewrite dict_keys_set. destruct (decide (k ∈ dict_keys d)); [done|].
  apply NoDup_app. split; [done|]. split; [|apply NoDup_singleton].
  by intros x Hx ->%list_elem_of_singleton.
Qed.

Lemma dict_find_is_Some k d : is_Some (dict_find k d) <-> k ∈ dict_keys d.
Proof.
  unfold dict_keys. induction d as [|[k0 v0] d IH]; simpl.
  - split; [by intros [? ?]|by intros ?%elem_of_nil].
  - destruct (decide (k0 = k)) as [->|Hne].
    + split; [left|by eexists].
    + rewrite IH, elem_of_cons. split; [by right|]. by intros [->|?].
Qed.

End Dict.

(** ** The class hierarchy *)

Lemma create_class_hierarchy_from (m : Model) (classes : list cls) (h0 : dict cls (list cls)) :
  let h := foldl (fun hierarchy c => dict_set c (parents m c) hierarchy) h0 classes in
  (forall c, c ∈ dict_keys h <-> c ∈ dict_keys h0 \/ c ∈ classes) /\
  (NoDup (dict_keys h0) -> NoDup (dict_keys h)) /\
  (forall c, dict_find c h = if decide (c ∈ classes) then Some (parents m c) else dict_find c h0).
Proof.
  revert h0. induction classes as [|c0 classes IH]; intros h0; simpl.
  - split; [|split; [done|]].
    + intros c. split; [by left|]. by intros [?|?%elem_of_nil].
    + intros c. destruct (decide (c ∈ [])) as [?%elem_of_nil|]; done.
  - destruct (IH (dict_set c0 (parents m c0) h0)) as (Hk & Hn & Hf).
    split; [|split].
    + intros c. rewrite Hk, elem_of_dict_keys_set, elem_of_cons. tauto.
    + intros Hh0. by apply Hn, NoDup_dict_keys_set.
    + intros c. rewrite Hf.
      destruct (decide (c ∈ classes)) as [Hin|Hin].
      * rewrite decide_True; [done|]. by right.
      * destruct (decide (c = c0)) as [->|Hne].
        -- rewrite decide_True by left. apply dict_find_set_eq.
        -- rewrite decide_False; [by apply dict_find_set_ne|].
           by intros [?|?]%elem_of_cons.
Qed.

Lemma create_class_hierarchy_keys (m : Model) (classes : list cls) (c : cls) :
  c ∈ dict_keys (create_class_hierarchy m classes) <-> c ∈ classes.
Proof.
  destruct (create_class_hierarchy_from m classes []) as (Hk & _ & _).
  unfold create_class_hierarchy. fold (parents m) in *.
  rewrite (Hk c). split; [by intros [?%elem_of_nil|?]|by right].
Qed.


Lemma create_class_hierarchy_find (m : Model) (classes : list cls) (c : cls) :
  dict_find c (create_class_hierarchy m classes)
  = if decide (c ∈ classes) then Some (parents m c) else None.
Proof.
  destruct (create_class_hierarchy_from m classes []) as (_ & _ & Hf).
  apply Hf.
Qed.




(** ** The filter step *)




Lemma prefix_tilde (s : string) :
  String.prefix "~" s = match s with
                        | String c0 _ => Ascii.eqb c0 "~"
                        | EmptyString => false
                        end.
Proof.
  destruct s as [|c0 s]; [done|].
  change (String.prefix "~" (String c0 s))
    with (if ascii_dec "~" c0 then String.prefix EmptyString s else false).
  destruct (ascii_dec "~" c0) as [<-|Hne].
  - by destruct s.
  - symmetry. apply Ascii.eqb_neq. congruence.
Qed.

Lemma select_classes_Ok (m : Model) (classes cs : list cls) (enums : gmap string cls) :
  select_classes m classes = Ok (cs, enums) ->
  cs = sorted (fun c => Class.name (m c)) (filter (kept m) classes) /\
  enums = (find_enumerations m classes).2.
Proof.
  unfold select_classes. simpl. intros Hrun.
  apply bind_Ok in Hrun as (cs1 & H1 & Hrun).
  apply bind_Ok in Hrun as (cs2 & H2 & Hrun).
  inversion Hrun; subst cs enums; clear Hrun. split; [|done]. f_equal.
  apply (filter_Ok_filter _
           (fun c => bool_decide (head (Class.qualifiedName (m c)) ≠ Some "Gaphor Profile")))
    in H1.
  2:{ intros c b _. destruct (Class.qualifiedName (m c)) as [|q qs]; [done|].
      intros [= <-]. simpl. destruct (String.eqb_spec q "Gaphor Profile") as [->|Hne].
      - rewrite bool_decide_false; [done|]. by intros H.
      - rewrite bool_decide_true; [done|]. congruence. }
  apply (filter_Ok_filter _
           (fun c => bool_decide (String.prefix "~" (Class.name (m c)) = false))) in H2.
  2:{ intros c b _. rewrite prefix_tilde. destruct (Class.name (m c)) as [|c0 s]; [done|].
      intros [= <-]. by destruct (Ascii.eqb c0 "~"). }
  subst cs2 cs1. rewrite !list_filter_filter. apply list_filter_iff.
  intros c. unfold kept. rewrite !bool_decide_eq_true. tauto.
Qed.



(** ** What [write_attributes] writes *)

Lemma write_attributes_loop (m : Model) (l : list Property.t) (f : TextIO) (w : bool) :
  for_ l (fun a '(f, written) =>
            if skipped a then Ok (f, written)
            else
              type_value ← type_converter m a;
              if truthy (Some type_value)
              then Ok (write f (attribute_line a type_value), true)
              else Ok (f, written))
       (f, w)
  = chunks ← mapM (attribute_chunk m) l;
    Ok ((f ++ List.concat chunks)%list, w || nonempty (List.concat chunks)).
Proof.
  revert f w. induction l as [|a l IH]; intros f w.
  - simpl. by rewrite app_nil_r, orb_false_r.
  - cbn [for_ mapM]. remember (mapM (attribute_chunk m) l) as r eqn:Hr.
    unfold attribute_chunk. destruct (skipped a); rsimpl.
    + rewrite IH. by destruct r.
    + destruct (type_converter m a) as [tv| |]; rsimpl; [|done..].
      destruct (truthy (Some tv)); rsimpl; rewrite IH;
        destruct r as [chunks| |]; rsimpl; try done.
      unfold write. simpl. by rewrite <- app_assoc, orb_true_r.
Qed.

Lemma write_operations_loop (ops : list Operation.t) (f : TextIO) (w : bool) :
  for_ ops (fun o '(f, written) =>
              Ok (write f ("    " ++ str (Operation.name o) ++ ": operation" ++ nl), true))
       (f, w)
  = Ok ((f ++ map operation_line ops)%list, w || nonempty ops).
Proof.
  revert f w. induction ops as [|o ops IH]; intros f w; simpl.
  - by rewrite app_nil_r, orb_false_r.
  - rewrite IH. unfold write, operation_line.
    by rewrite <- app_assoc, orb_true_r.
Qed.

Lemma write_attributes_class_body (m : Model) (c : cls) (f : TextIO) :
  write_attributes m c f = out ← class_body m c; Ok (f ++ out)%list.
Proof.
  unfold write_attributes, class_body. rewrite write_attributes_loop.
  destruct (mapM _ _) as [chunks| |]; simpl; [|done..].
  rewrite write_operations_loop. simpl.
  f_equal. unfold write. rewrite <- !app_assoc.
  destruct (List.concat chunks) as [|l ls]; [|done].
  by destruct (Class.ownedOperation (m c)).
Qed.

(** ** The traversal of [write_class_def] *)

Lemma write_class_def_unfold (fuel : nat) (m : Model) (c : cls) (h : dict cls (list cls))
    (f : TextIO) (W : gset cls) :
  write_class_def (S fuel) m c h f W
  = if decide (c ∈ W) then Ok (f, W)
    else
      gens ← dict_get h c;
      '(f1, W1) ← generalizations_loop fuel m h gens (f, W);
      f2 ← write_attributes m c (write f1 (class_line m c gens));
      Ok (f2, {[c]} ∪ W1).
Proof. reflexivity. Qed.

Lemma generalizations_loop_cons (fuel : nat) (m : Model) (h : dict cls (list cls))
    (g : cls) (gens : list cls) (f : TextIO) (W : gset cls) :
  generalizations_loop fuel m h (g :: gens) (f, W)
  = st ← write_class_def fuel m g h f W; generalizations_loop fuel m h gens st.
Proof. reflexivity. Qed.

Lemma dict_get_Ok {K V : Type} `{EqDecision K} (d : dict K V) (k : K) (v : V) :
  dict_get d k = Ok v <-> dict_find k d = Some v.
Proof. unfold dict_get. destruct (dict_find k d); split; intros H'; by inversion H'. Qed.

Section Blocked.
Variables (m : Model) (h : dict cls (list cls)).

Lemma blocked_loop (fuel : nat) :
  (forall S c f W f' W', blocked h S c W -> write_class_def fuel m c h f W = Ok (f', W') ->
                         ~ S c /\ forall s, S s -> s ∉ W') ->
  forall S c ps l f W f1 W1,
    dict_find c h = Some ps -> l ⊆ ps -> blocked h S c W -> c ∉ W ->
    generalizations_loop fuel m h l (f, W) = Ok (f1, W1) ->
    (forall s, S s \/ s = c -> s ∉ W1) /\ (forall g, g ∈ l -> ~ (S g \/ g = c)).
Proof.
  intros IH S c ps l. induction l as [|g l IHl]; intros f W f1 W1 Hps Hl HS Hc Hrun.
  - inversion Hrun; subst. split.
    + intros s [Hs| ->]; [by apply HS|done].
    + by intros g ?%elem_of_nil.
  - rewrite generalizations_loop_cons in Hrun.
    apply bind_Ok in Hrun as ([f0 W0] & Hg & Hrun).
    assert (blocked h (fun s => S s \/ s = c) g W) as Hblocked.
    { intros s [Hs| ->].
      - destruct (HS s Hs) as (Hw & qs & p & Hqs & Hp & Hp'). split; [done|].
        exists qs, p. tauto.
      - split; [done|]. exists ps, g. split; [done|]. split; [|by right].
        apply Hl. left. }
    destruct (IH _ _ _ _ _ _ Hblocked Hg) as [Hng Hw0].
    destruct (IHl f0 W0 f1 W1) as [Hw1 Hnl]; try done.
    + intros x Hx. apply Hl. by right.
    + intros s Hs. split; [apply Hw0; by left|].
      destruct (HS s Hs) as (_ & qs & p & ?). by exists qs, p.
    + apply Hw0. by right.
    + split; [done|]. intros x [->|Hx]%elem_of_cons; [done|by apply Hnl].
Qed.

(** A visit that returns has written none of the blocked classes. *)
Lemma write_class_def_blocked (fuel : nat) (S : cls -> Prop) (c : cls) (f : TextIO)
    (W : gset cls) (f' : TextIO) (W' : gset cls) :
  blocked h S c W -> write_class_def fuel m c h f W = Ok (f', W') ->
  ~ S c /\ forall s, S s -> s ∉ W'.
Proof.
  revert S c f W f' W'. induction fuel as [|fuel IH]; intros S c f W f' W' HS Hrun; [done|].
  rewrite write_class_def_unfold in Hrun.
  destruct (decide (c ∈ W)) as [Hc|Hc].
  - inversion Hrun; subst. split; [|intros s Hs; by apply HS].
    intros Hs. by apply (HS c Hs).
  - apply bind_Ok in Hrun as (gens & Hgens%dict_get_Ok & Hrun).
    apply bind_Ok in Hrun as ([f1 W1] & Hloop & Hrun).
    apply bind_Ok in Hrun as (f2 & _ & Hrun). inversion Hrun; subst f' W'; clear Hrun.
    destruct (blocked_loop fuel IH S c gens gens f W f1 W1) as [Hw1 Hn]; try done.
    assert (~ S c) as Hnc.
    { intros Hs. destruct (HS c Hs) as (_ & qs & p & Hqs & Hp & Hp').
      rewrite Hgens in Hqs. inversion Hqs; subst qs. by apply (Hn p). }
    split; [done|]. intros s Hs [->%elem_of_singleton|Hin]%elem_of_union; [done|].
    apply (Hw1 s); [by left|done].
Qed.

(** A class is not written while its generalizations are being visited. *)
Lemma generalizations_loop_not_written (fuel : nat) (c : cls) (gens : list cls)
    (f : TextIO) (W : gset cls) (f1 : TextIO) (W1 : gset cls) :
  dict_find c h = Some gens -> c ∉ W ->
  generalizations_loop fuel m h gens (f, W) = Ok (f1, W1) -> c ∉ W1.
Proof.
  intros Hgens Hc Hloop.
  destruct (blocked_loop fuel (write_class_def_blocked fuel) (fun _ => False)
              c gens gens f W f1 W1) as [Hw1 _]; try done.
  apply Hw1. by right.
Qed.

End Blocked.

Section Emits.
Variables (m : Model) (h : dict cls (list cls)).

Lemma class_defs_app (o1 o2 : list cls) (d1 d2 : TextIO) :
  class_defs m h o1 = Ok d1 -> class_defs m h o2 = Ok d2 ->
  class_defs m h (o1 ++ o2) = Ok (d1 ++ d2)%list.
Proof.
  revert d1. induction o1 as [|c o1 IH]; intros d1 H1 H2; simpl in *.
  - by inversion H1.
  - apply bind_Ok in H1 as (d & Hd & H1). apply bind_Ok in H1 as (ds & Hds & H1).
    inversion H1; subst d1. rewrite Hd. rsimpl. rewrite (IH ds) by done. rsimpl.
    by rewrite app_assoc.
Qed.

Lemma class_defs_keys (order : list cls) (defs : TextIO) (x : cls) :
  class_defs m h order = Ok defs -> x ∈ order -> x ∈ dict_keys h.
Proof.
  revert defs. induction order as [|c order IH]; intros defs Hrun Hx.
  - by apply elem_of_nil in Hx.
  - simpl in Hrun. apply bind_Ok in Hrun as (d & Hd & Hrun).
    apply bind_Ok in Hrun as (ds & Hds & _).
    apply elem_of_cons in Hx as [->|Hx]; [|by eapply IH].
    apply bind_Ok in Hd as (gens & Hgens%dict_get_Ok & _).
    apply dict_find_is_Some. by eexists.
Qed.

Lemma emits_nil (W : gset cls) (f : TextIO) : emits m h W f [] f W.
Proof.
  repeat split.
  - exists []. by rewrite app_nil_r.
  - set_solver.
  - constructor.
  - by intros x ?%elem_of_nil.
  - intros l1 x l2 ps g Heq. by destruct l1.
Qed.

Lemma emits_app (W : gset cls) (f : TextIO) (o1 : list cls) (f1 : TextIO) (W1 : gset cls)
    (o2 : list cls) (f2 : TextIO) (W2 : gset cls) :
  emits m h W f o1 f1 W1 -> emits m h W1 f1 o2 f2 W2 -> emits m h W f (o1 ++ o2) f2 W2.
Proof.
  intros ((d1 & Hd1 & ->) & -> & Hnd1 & Hw1 & Ha1) ((d2 & Hd2 & ->) & -> & Hnd2 & Hw2 & Ha2).
  repeat split.
  - exists (d1 ++ d2)%list. split; [by apply class_defs_app|by rewrite app_assoc].
  - rewrite list_to_set_app_L. set_solver.
  - apply NoDup_app. split; [done|]. split; [|done].
    intros x Hx1 Hx2. apply (Hw2 x Hx2). set_solver.
  - intros x [Hx|Hx]%elem_of_app; [by apply Hw1|].
    specialize (Hw2 x Hx). set_solver.
  - intros l1 x l2 ps g Heq Hps Hg.
    apply app_eq_app in Heq as [l [[Ho1 Heq]|[Hl1 Heq]]].
    + destruct l as [|y l]; simpl in Heq.
      * rewrite app_nil_r in Ho1. subst l1. symmetry in Heq.
        destruct (Ha2 [] x l2 ps g Heq Hps Hg) as [Hin|Hin]; [|by apply elem_of_nil in Hin].
        apply elem_of_union in Hin as [Hin%elem_of_list_to_set|Hin]; [by right|by left].
      * inversion Heq; subst y l2. by apply (Ha1 l1 x l ps g).
    + subst l1. destruct (Ha2 l x l2 ps g Heq Hps Hg) as [Hin|Hin].
      * apply elem_of_union in Hin as [Hin%elem_of_list_to_set|Hin]; [|by left].
        right. apply elem_of_app. by left.
      * right. apply elem_of_app. by right.
Qed.

Lemma emits_subseteq (W : gset cls) (f : TextIO) (order : list cls) (f' : TextIO)
    (W' : gset cls) :
  emits m h W f order f' W' -> W ⊆ W'.
Proof. intros (_ & -> & _). set_solver. Qed.

(** What a visit of [c] writes: nothing when [c] is written already, and
    otherwise the definitions of classes that end with the one of [c]. *)
Lemma write_class_def_emits (fuel : nat) (c : cls) (f : TextIO) (W : gset cls)
    (f' : TextIO) (W' : gset cls) :
  write_class_def fuel m c h f W = Ok (f', W') ->
  exists order, emits m h W f order f' W' /\ c ∈ W' /\
                ((c ∈ W /\ order = []) \/ ((c ∉ W) /\ exists gs, order = (gs ++ [c])%list)).
Proof.
  revert c f W f' W'. induction fuel as [|fuel IH]; intros c f W f' W' Hrun; [done|].
  rewrite write_class_def_unfold in Hrun.
  destruct (decide (c ∈ W)) as [Hc|Hc].
  { inversion Hrun; subst. exists []. split; [apply emits_nil|]. split; [done|by left]. }
  apply bind_Ok in Hrun as (gens & Hgens%dict_get_Ok & Hrun).
  apply bind_Ok in Hrun as ([f1 W1] & Hloop & Hrun).
  apply bind_Ok in Hrun as (f2 & Hattr & Hrun). inversion Hrun; subst f' W'; clear Hrun.
  pose proof (generalizations_loop_not_written m h _ _ _ _ _ _ _ Hgens Hc Hloop) as Hc1.
  assert (exists gs, emits m h W f gs f1 W1 /\ forall g, g ∈ gens -> g ∈ W1) as (gs & Hgs & Hin).
  { clear Hgens Hattr Hc Hc1. revert f W Hloop.
    induction gens as [|g gens IHg]; intros f W Hloop.
    - inversion Hloop; subst. exists []. split; [apply emits_nil|]. by intros g ?%elem_of_nil.
    - rewrite generalizations_loop_cons in Hloop.
      apply bind_Ok in Hloop as ([f0 W0] & Hg & Hloop).
      destruct (IH _ _ _ _ _ Hg) as (o1 & Ho1 & Hg0 & _).
      destruct (IHg _ _ Hloop) as (o2 & Ho2 & Hin).
      exists (o1 ++ o2)%list. split; [by eapply emits_app|].
      intros x [->|Hx]%elem_of_cons; [|by apply Hin].
      by apply (emits_subseteq _ _ _ _ _ Ho2). }
  rewrite write_attributes_class_body in Hattr.
  apply bind_Ok in Hattr as (body & Hbody & Hattr). inversion Hattr; subst f2; clear Hattr.
  exists (gs ++ [c])%list. split; [|split; [set_solver|right; split; [done|by exists gs]]].
  eapply emits_app; [exact Hgs|]. repeat split.
  - exists (class_line m c gens :: body). split.
    + simpl. unfold class_def. apply dict_get_Ok in Hgens. rewrite Hgens. rsimpl.
      rewrite Hbody. rsimpl. by rewrite app_nil_r.
    + unfold write. by rewrite <- app_assoc.
  - simpl. set_solver.
  - apply NoDup_singleton.
  - by intros x ->%list_elem_of_singleton.
  - intros l1 x l2 ps g Heq Hps Hg. destruct l1 as [|y l1].
    + inversion Heq; subst x l2. rewrite Hgens in Hps. inversion Hps; subst ps.
      left. by apply Hin.
    + inversion Heq as [[Hy Hl]]. by destruct l1.
Qed.

(** Whatever a visit of [c] adds to the written set is [c] or one of its
    generalizations, direct or not. *)
Lemma write_class_def_ancestors (fuel : nat) (c : cls) (f : TextIO) (W : gset cls)
    (f' : TextIO) (W' : gset cls) :
  write_class_def fuel m c h f W = Ok (f', W') ->
  forall x, x ∈ W' -> x ∈ W \/ rtc (generalization h) c x.
Proof.
  revert c f W f' W'. induction fuel as [|fuel IH]; intros c f W f' W' Hrun; [done|].
  rewrite write_class_def_unfold in Hrun.
  destruct (decide (c ∈ W)) as [Hc|Hc].
  { inversion Hrun; subst. by left. }
  apply bind_Ok in Hrun as (gens & Hgens%dict_get_Ok & Hrun).
  apply bind_Ok in Hrun as ([f1 W1] & Hloop & Hrun).
  apply bind_Ok in Hrun as (f2 & _ & Hrun). inversion Hrun; subst f' W'; clear Hrun.
  assert (forall x, x ∈ W1 -> x ∈ W \/ exists g, g ∈ gens /\ rtc (generalization h) g x)
    as Hloop'.
  { clear Hgens Hc. revert f W Hloop.
    induction gens as [|g gens IHg]; intros f W Hloop x Hx.
    - inversion Hloop; subst. by left.
    - rewrite generalizations_loop_cons in Hloop.
      apply bind_Ok in Hloop as ([f0 W0] & Hg & Hloop).
      destruct (IHg _ _ Hloop x Hx) as [Hx0|(g' & Hg' & Hreach)].
      + destruct (IH _ _ _ _ _ Hg x Hx0) as [?|Hreach]; [by left|].
        right. exists g. split; [left|done].
      + right. exists g'. split; [by right|done]. }
  intros x [->%elem_of_singleton|Hx]%elem_of_union; [by right|].
  destruct (Hloop' x Hx) as [?|(g & Hg & Hreach)]; [by left|].
  right. eapply rtc_l; [|exact Hreach]. by exists gens.
Qed.

End Emits.

(** ** Sorting the attributes of a class in place *)

Lemma same_classes_refl (m : Model) : same_classes m m.
Proof. by intros c. Qed.

Lemma sort_attribute_same (m m' : Model) (c : cls) :
  same_classes m m' -> same_classes m (sort_attribute m' c).
Proof.
  intros Hm c'. unfold sort_attribute. destruct (decide (c' = c)) as [->|]; [|apply Hm].
  destruct (Hm c) as (Hn & Hg & Ha & Ho). simpl. by rewrite sorted_idemp.
Qed.

Lemma same_classes_attribute (m m' : Model) (c : cls) (a : Property.t) :
  same_classes m m' -> a ∈ Class.attribute (m' c) <-> a ∈ Class.attribute (m c).
Proof.
  intros Hm. destruct (Hm c) as (_ & _ & Ha & _).
  by rewrite <- (elem_of_sorted name_or_empty a (Class.attribute (m' c))), Ha, elem_of_sorted.
Qed.

Lemma type_converter_same (m m' : Model) (a : Property.t) :
  same_classes m m' -> type_converter m' a = type_converter m a.
Proof.
  intros Hm. unfold type_converter. destruct (Property.type a) as [t|]; [|done].
  by destruct (Hm t) as (-> & _).
Qed.

Lemma mapM_ext {X Y : Type} (g g' : X -> result Y) (xs : list X) :
  (forall x, g x = g' x) -> mapM g xs = mapM g' xs.
Proof. intros Hg. induction xs as [|x xs IH]; simpl; [done|]. by rewrite Hg, IH. Qed.

Lemma for_ext {X S : Type} (body body' : X -> S -> result S) (xs : list X) (s : S) :
  (forall x t, body x t = body' x t) -> for_ xs body s = for_ xs body' s.
Proof.
  intros Hb. revert s. induction xs as [|x xs IH]; intros s; simpl; [done|].
  rewrite Hb. destruct (body' x s); simpl; [apply IH|done..].
Qed.

Lemma class_body_same (m m' : Model) (c : cls) :
  same_classes m m' -> class_body m' c = class_body m c.
Proof.
  intros Hm. unfold class_body. destruct (Hm c) as (_ & _ & -> & ->).
  rewrite (mapM_ext (attribute_chunk m') (attribute_chunk m)); [done|].
  intros a. unfold attribute_chunk. by rewrite (type_converter_same m m').
Qed.

Lemma class_line_same (m m' : Model) (c : cls) (gens : list cls) :
  same_classes m m' -> class_line m' c gens = class_line m c gens.
Proof.
  intros Hm. unfold class_line. destruct (Hm c) as (-> & _). do 5 f_equal.
  apply map_ext. intros g. by destruct (Hm g) as (-> & _).
Qed.

Lemma write_class_def_same (m m' : Model) (h : dict cls (list cls)) (fuel : nat)
    (c : cls) (f : TextIO) (W : gset cls) :
  same_classes m m' -> write_class_def fuel m' c h f W = write_class_def fuel m c h f W.
Proof.
  intros Hm. revert c f W. induction fuel as [|fuel IH]; intros c f W; [done|].
  rewrite !write_class_def_unfold. destruct (decide (c ∈ W)); [done|].
  destruct (dict_get h c) as [gens| |]; rsimpl; [|done..].
  unfold generalizations_loop.
  rewrite (for_ext _ (fun g '(f, cls_written) => write_class_def fuel m g h f cls_written))
    by (intros g [f0 W0]; apply IH).
  destruct (for_ gens _ (f, W)) as [[f1 W1]| |]; rsimpl; [|done..].
  by rewrite !write_attributes_class_body, (class_body_same m m'), (class_line_same m m').
Qed.

(** ** The loops of [generate] *)

Lemma classes_loop_emits (fuel : nat) (h : dict cls (list cls))
    (m0 : Model) (keys : list cls) (m : Model) (f : TextIO) (W : gset cls)
    (m' : Model) (f' : TextIO) (W' : gset cls) :
  same_classes m0 m ->
  classes_loop fuel h keys (m, f, W) = Ok (m', f', W') ->
  same_classes m0 m' /\
  exists batches, emits m0 h W f (List.concat batches) f' W' /\
                  Forall2 (batch_of h) keys batches /\
                  forall k, k ∈ keys -> k ∈ W'.
Proof.
  revert m f W. induction keys as [|k keys IH]; intros m f W Hm Hrun.
  - inversion Hrun; subst. split; [done|]. exists []. split; [apply emits_nil|].
    split; [constructor|]. by intros k ?%elem_of_nil.
  - unfold classes_loop in Hrun. simpl in Hrun. fold (classes_loop fuel h keys) in Hrun.
    apply bind_Ok in Hrun as ([[m1 f1] W1] & Hk & Hrun).
    apply bind_Ok in Hk as ([f1' W1'] & Hk & Heq). inversion Heq; subst m1 f1' W1'; clear Heq.
    pose proof (sort_attribute_same m0 m k Hm) as Hm1.
    rewrite (write_class_def_same m0 _ h) in Hk by done.
    pose proof (write_class_def_ancestors _ _ _ _ _ _ _ _ Hk) as Hanc.
    apply write_class_def_emits in Hk as (o1 & Ho1 & Hk1 & Hshape).
    destruct (IH _ _ _ Hm1 Hrun) as (Hm' & batches & Hb & Hshapes & Hin).
    split; [done|]. exists (o1 :: batches). split; [|split].
    + simpl. by eapply emits_app.
    + constructor; [|done]. split.
      * destruct Hshape as [[_ ->]|[_ Hgs]]; [by left|by right].
      * intros x Hx. destruct Ho1 as (_ & HW1 & _ & Hw & _).
        destruct (Hanc x) as [HxW|Hreach]; [|by apply Hw in Hx|done].
        rewrite HW1. apply elem_of_union. left. by apply elem_of_list_to_set.
    + intros x [->|Hx]%elem_of_cons; [|by apply Hin].
      by apply (emits_subseteq _ _ _ _ _ _ _ Hb).
Qed.

Lemma foldl_write {X : Type} (line : X -> string) (xs : list X) (f : TextIO) :
  foldl (fun f x => write f (line x)) f xs = (f ++ map line xs)%list.
Proof.
  revert f. induction xs as [|x xs IH]; intros f; simpl.
  - by rewrite app_nil_r.
  - rewrite IH. unfold write. by rewrite <- app_assoc.
Qed.

Lemma write_prefix (f : TextIO) (s : string) : f `prefix_of` write f s.
Proof. by exists [s]. Qed.

Section Prefix.
Variables (repr : string -> string) (m : Model).

Lemma write_property_prefix (c : cls) (enums : gmap string cls) (a : Property.t)
    (f : TextIO) (v : option (list (option string)))
    (f' : TextIO) (v' : option (list (option string))) :
  write_property repr m c enums a (f, v) = Ok (f', v') -> f `prefix_of` f'.
Proof.
  unfold write_property. intros Hrun.
  destruct (skipped a); [by inversion Hrun|].
  apply bind_Ok in Hrun as (tv & _ & Hrun).
  repeat case_match; inversion Hrun; subst; (done || apply write_prefix).
Qed.

Lemma write_properties_prefix (c : cls) (enums : gmap string cls) (f f' : TextIO) :
  write_properties repr m c f enums = Ok f' -> f `prefix_of` f'.
Proof.
  unfold write_properties. intros Hrun.
  apply bind_Ok in Hrun as ([f1 v1] & Hloop & Hrun). inversion Hrun; subst f1; clear Hrun.
  apply (for_invariant (fun st => f `prefix_of` st.1) _ _ _ _) in Hloop; [done| |done].
  intros a [f0 v0] [f2 v2] _ Hf0 Hstep. simpl in *.
  etrans; [exact Hf0|]. by eapply write_property_prefix.
Qed.

Lemma write_subsets_prefix (c : cls) (f : TextIO) : f `prefix_of` write_subsets m c f.
Proof.
  unfold write_subsets. revert f.
  induction (Class.attribute (m c)) as [|a l IH]; intros f; simpl; [done|].
  etrans; [|apply IH]. generalize (Property.slot a). clear. intros slots. revert f.
  induction slots as [|s slots IH]; intros f; simpl; [done|].
  etrans; [|apply IH]. case_bool_decide; [apply write_prefix|done].
Qed.

End Prefix.

(** ** The output of [generate] *)

Lemma generate_Ok (lookup_element : string -> bool) (repr : string -> string) (fuel : nat)
    (m : Model) (classes : list cls) (f : TextIO) :
  generate lookup_element repr fuel m classes = Ok f ->
  exists cs enums batches,
    select_classes m classes = Ok (cs, enums) /\ generated lookup_element m cs batches f.
Proof.
  unfold generate. intros Hrun.
  apply bind_Ok in Hrun as ([cs enums] & Hsel & Hrun). cbv beta iota zeta in Hrun.
  fold (classes_loop fuel (create_class_hierarchy m cs)) in Hrun.
  apply bind_Ok in Hrun as ([[m1 f1] W1] & Hloop & Hrun).
  apply bind_Ok in Hrun as (f2 & Hprops & Hrun). inversion Hrun; subst f; clear Hrun.
  apply (classes_loop_emits _ _ m) in Hloop as (Hm1 & batches & Hemits & Hshapes & Hkeys);
    [|apply same_classes_refl].
  destruct Hemits as ((defs & Hdefs & ->) & -> & Hnd & Hw & Hafter).
  exists cs, enums, batches. split; [done|].
  unfold generated. cbv zeta. split; [|split; [done|split; [|done]]].
  - match type of Hprops with for_ _ _ ?f1 = _ => remember f1 as start eqn:Hstart end.
    assert (start `prefix_of` f2) as Hf2.
    { apply (for_invariant (fun f' => start `prefix_of` f') _ _ _ _) in Hprops; [done| |done].
      intros c f0 f0' _ Hf0 Hstep. etrans; [exact Hf0|]. by eapply write_properties_prefix. }
    assert (f2 `prefix_of`
              foldl (fun f c => write_subsets m1 c f) f2
                    (dict_keys (create_class_hierarchy m cs))) as [rest2 Hrest2].
    { generalize (dict_keys (create_class_hierarchy m cs)). intros keys. clear.
      revert f2. induction keys as [|k keys IH]; intros f2; simpl; [done|].
      etrans; [apply (write_subsets_prefix m1 k)|apply IH]. }
    destruct Hf2 as [rest1 ->]. exists defs, (rest1 ++ rest2)%list. split; [done|].
    rewrite Hrest2, Hstart. change (fun f c => write f (_ ++ Class.name (m c) ++ nl))
      with (fun f c => write f (import_line m c)).
    rewrite (foldl_write (import_line m)). unfold write. simpl.
    by rewrite <- !app_assoc.
  - intros x. split.
    + intros Hx. split.
      * eapply create_class_hierarchy_keys, class_defs_keys; done.
      * apply Hw in Hx. by rewrite elem_of_list_to_set in Hx.
    + intros [Hx Hn]. rewrite <- (elem_of_list_to_set (C:=gset cls)) in Hn.
      apply (create_class_hierarchy_keys m) in Hx. apply Hkeys in Hx.
      apply elem_of_union in Hx as [Hx|Hx]; [|done]. by apply elem_of_list_to_set in Hx.
Qed.

Lemma append_empty_r (s : string) : s ++ EmptyString = s.
Proof.
  induction s as [|c s IH]; [done|].
  change (String c (s ++ EmptyString) = String c s). by rewrite IH.
Qed.

Lemma getvalue_cons (s : string) (f : TextIO) : getvalue (s :: f) = s ++ getvalue f.
Proof.
  unfold getvalue. destruct f as [|t f]; [|reflexivity].
  change (s = s ++ EmptyString). by rewrite append_empty_r.
Qed.

Lemma prefix_append (s t : string) : String.prefix s (s ++ t) = true.
Proof.
  induction s as [|c s IH]; [by destruct t|].
  change (match ascii_dec c c with
          | left _ => String.prefix s (s ++ t)
          | right _ => false
          end = true).
  by destruct (ascii_dec c c).
Qed.

(** C7: the file written by a run of [generate] starts with the header:
    the header is the first string written, before the import lines and the
    class definitions, and the content of the file begins with its text. *)
Theorem generate_header (lookup_element : string -> bool) (repr : string -> string)
    (fuel : nat) (m : Model) (classes : list cls) (f : TextIO) :
  generate lookup_element repr fuel m classes = Ok f ->
  (exists cs defs rest,
     f = (header :: map (import_line m) (filter_uml_classes lookup_element m cs)
                 ++ defs ++ rest)%list) /\
  String.prefix header (getvalue f) = true.
Proof.
  intros Hrun. apply generate_Ok in Hrun as (cs & enums & batches & _ & Hgen).
  destruct Hgen as ((defs & rest & _ & ->) & _). split.
  - by exists cs, defs, ((nl ++ nl) :: rest).
  - rewrite getvalue_cons. apply prefix_append.
Qed.

Lemma generate_header_witness :
  exists f, generate is_uml simple_repr 2 demo [0; 1; 2; 3; 4] = Ok f /\
            String.prefix header (getvalue f) = true.
Proof.
  eexists. split; [reflexivity|].
  refine (proj2 (generate_header is_uml simple_repr 2 demo [0; 1; 2; 3; 4] _ _)).
  reflexivity.
Defined.

(** C8: a visit of a class that is in [cls_written] writes nothing and
    leaves [cls_written] as it is; and in the file written by [generate] the
    definitions are those of the kept classes that are not UML classes, each
    of them once. *)
Theorem write_class_def_once :
  (forall fuel m c h f (cls_written : gset cls),
     c ∈ cls_written ->
     write_class_def (S fuel) m c h f cls_written = Ok (f, cls_written)) /\
  (forall lookup_element repr fuel m classes f,
     generate lookup_element repr fuel m classes = Ok f ->
     exists cs enums order defs rest,
       select_classes m classes = Ok (cs, enums) /\
       class_defs m (create_class_hierarchy m cs) order = Ok defs /\
       f = (header :: map (import_line m) (filter_uml_classes lookup_element m cs)
                   ++ defs ++ (nl ++ nl)%string :: rest)%list /\
       NoDup order /\
       (forall x, x ∈ order <-> x ∈ cs /\ x ∉ filter_uml_classes lookup_element m cs)).
Proof.
  split.
  - intros fuel m c h f W Hc. rewrite write_class_def_unfold. by rewrite decide_True.
  - intros lookup_element repr fuel m classes f Hrun.
    apply generate_Ok in Hrun as (cs & enums & batches & Hsel & Hgen).
    destruct Hgen as ((defs & rest & Hdefs & ->) & Hnd & Hin & _).
    by exists cs, enums, (List.concat batches), defs, rest.
Qed.

Lemma write_class_def_once_witness :
  write_class_def 1 demo 1 [] [header] {[1]} = Ok ([header], {[1]}) /\
  exists (f : TextIO) (order : list cls),
    generate is_uml simple_repr 3 demo [0; 1; 2; 3; 4] = Ok f /\ NoDup order.
Proof.
  split.
  - apply (proj1 write_class_def_once 0 demo 1 [] [header] {[1]}).
    by apply elem_of_singleton.
  - destruct (proj2 write_class_def_once is_uml simple_repr 3 demo [0; 1; 2; 3; 4]
                demo_output eq_refl)
      as (cs & enums & order & defs & rest & _ & _ & _ & Hnd & _).
    by exists demo_output, order.
Defined.

(** C1, as amended: the definitions a visit writes come in an order in
    which every class stands after the classes the hierarchy holds for it,
    except those that were in [cls_written] when the visit began; in
    [generate] these are the UML classes, which are imported and not
    defined. *)
Theorem write_class_def_after_generalizations :
  (forall fuel m c h f (cls_written : gset cls) f' cls_written',
     write_class_def fuel m c h f cls_written = Ok (f', cls_written') ->
     exists order defs,
       class_defs m h order = Ok defs /\ f' = (f ++ defs)%list /\
       forall l1 x l2 ps g,
         order = (l1 ++ x :: l2)%list -> dict_find x h = Some ps -> g ∈ ps ->
         g ∈ cls_written \/ g ∈ l1) /\
  (forall lookup_element repr fuel m classes f,
     generate lookup_element repr fuel m classes = Ok f ->
     exists cs enums order defs rest,
       select_classes m classes = Ok (cs, enums) /\
       class_defs m (create_class_hierarchy m cs) order = Ok defs /\
       f = (header :: map (import_line m) (filter_uml_classes lookup_element m cs)
                   ++ defs ++ (nl ++ nl)%string :: rest)%list /\
       forall l1 x l2 ps g,
         order = (l1 ++ x :: l2)%list ->
         dict_find x (create_class_hierarchy m cs) = Some ps -> g ∈ ps ->
         g ∈ filter_uml_classes lookup_element m cs \/ g ∈ l1).
Proof.
  split.
  - intros fuel m c h f W f' W' Hrun.
    apply write_class_def_emits in Hrun as (order & Hemits & _).
    destruct Hemits as ((defs & Hdefs & ->) & _ & _ & _ & Hafter).
    by exists order, defs.
  - intros lookup_element repr fuel m classes f Hrun.
    apply generate_Ok in Hrun as (cs & enums & batches & Hsel & Hgen).
    destruct Hgen as ((defs & rest & Hdefs & ->) & _ & _ & Hafter & _).
    exists cs, enums, (List.concat batches), defs, rest. repeat split; try done.
    intros l1 x l2 ps g Heq Hps Hg.
    destruct (Hafter l1 x l2 ps g Heq Hps Hg) as [Hin|Hin]; [|by right].
    left. by apply elem_of_list_to_set in Hin.
Qed.

Lemma write_class_def_after_generalizations_witness :
  exists f' (W' : gset cls),
    write_class_def 2 demo 2 [(3, []); (2, [3])] [] ∅ = Ok (f', W') /\
    exists order defs,
      class_defs demo [(3, []); (2, [3])] order = Ok defs /\ f' = ([] ++ defs)%list /\
      forall l1 x l2 ps g,
        order = (l1 ++ x :: l2)%list -> dict_find x [(3, []); (2, [3])] = Some ps -> g ∈ ps ->
        g ∈ (∅ : gset cls) \/ g ∈ l1.
Proof.
  eexists _, _. split; [reflexivity|].
  eapply (proj1 write_class_def_after_generalizations 2 demo 2 [(3, []); (2, [3])] [] ∅).
  reflexivity.
Defined.

(** C1 fails as it stands: the block of the small model specializes the UML
    class named Class; [generate] writes the definition of the block, and
    never a definition of that class. *)
Lemma generalization_never_written :
  exists f, generate is_uml simple_repr 2 demo [0; 1; 4] = Ok f /\
            dict_find 0 (create_class_hierarchy demo [0; 1]) = Some [1] /\
            class_line demo 0 [1] ∈ f /\
            forall gens, class_line demo 1 gens ∉ f.
Proof.
  eexists. split; [vm_compute; reflexivity|]. split; [reflexivity|]. split.
  - apply list_elem_of_In. vm_compute. tauto.
  - intros gens Hin. apply list_elem_of_In in Hin.
    unfold class_line in Hin. simpl in Hin.
    repeat (destruct Hin as [Hin|Hin]; [discriminate Hin|]). done.
Qed.

(** ** The order of classes and attributes *)





Lemma mapM_attribute_chunk (m : Model) (l : list Property.t) (chunks : list (list string)) :
  mapM (attribute_chunk m) l = Ok chunks ->
  List.concat chunks = map (fun e => attribute_line e.1 e.2) (omap (attribute_entry m) l).
Proof.
  revert chunks. induction l as [|a l IH]; intros chunks Hrun; simpl in Hrun.
  - by inversion Hrun.
  - apply bind_Ok in Hrun as (ch & Hch & Hrun). apply bind_Ok in Hrun as (chs & Hchs & Hrun).
    inversion Hrun; subst chunks; clear Hrun. simpl. rewrite (IH chs Hchs).
    unfold attribute_chunk in Hch. unfold attribute_entry.
    destruct (skipped a); [by inversion Hch|].
    destruct (type_converter m a) as [tv| |]; [|done..].
    simpl in Hch. inversion Hch; subst ch. by destruct tv.
Qed.







(** ** Failures *)

Lemma type_converter_Raise (m : Model) (p : Property.t) (e : exn) :
  type_converter m p = Raise e <->
  Property.type p = None /\ Property.typeValue p = None /\
  e = ValueError ("ERROR! type is not specified for property " ++ str (Property.name p)).
Proof.
  unfold type_converter.
  destruct (Property.type p) as [t|]; [split; [done|by intros (? & _)]|].
  destruct (Property.typeValue p) as [tv|].
  - split; [|by intros (_ & ? & _)]. by repeat case_match.
  - split; [by intros [= <-]|by intros (_ & _ & ->)].
Qed.

Lemma mapM_Raise {X Y : Type} (g : X -> result Y) (xs : list X) (e : exn) :
  mapM g xs = Raise e -> exists x, x ∈ xs /\ g x = Raise e.
Proof.
  induction xs as [|x xs IH]; intros Hrun; simpl in Hrun; [done|].
  apply bind_Raise in Hrun as [Hx | (y & _ & Hrun)].
  - exists x. split; [left|done].
  - apply bind_Raise in Hrun as [Hr | (r & _ & Hrun)]; [|done].
    destruct (IH Hr) as (x' & Hx' & Hg). exists x'. split; [by right|done].
Qed.

Lemma select_classes_Raise (m : Model) (classes : list cls) (e : exn) :
  select_classes m classes = Raise e -> e = IndexError.
Proof.
  unfold select_classes. simpl. intros Hrun.
  apply bind_Raise in Hrun as [Hrun | (cs1 & _ & Hrun)].
  - apply filter_Raise in Hrun as (c & _ & Hc). by repeat case_match; simplify_eq.
  - apply bind_Raise in Hrun as [Hrun | (cs2 & _ & Hrun)]; [|done].
    apply filter_Raise in Hrun as (c & _ & Hc). by repeat case_match; simplify_eq.
Qed.

Lemma write_attributes_Raise (m : Model) (c : cls) (f : TextIO) (e : exn) :
  write_attributes m c f = Raise e ->
  exists a, a ∈ Class.attribute (m c) /\ type_converter m a = Raise e.
Proof.
  rewrite write_attributes_class_body. intros Hrun.
  apply bind_Raise in Hrun as [Hrun | (body & _ & Hrun)]; [|done].
  unfold class_body in Hrun. apply bind_Raise in Hrun as [Hrun | (chunks & _ & Hrun)]; [|done].
  apply mapM_Raise in Hrun as (a & Ha%elem_of_sorted & Hrun). exists a. split; [done|].
  unfold attribute_chunk in Hrun. destruct (skipped a); [done|].
  by apply bind_Raise in Hrun as [Hrun | (tv & _ & Hrun)].
Qed.

(** A visit raises a [ValueError] only for an attribute, of a class of the
    hierarchy, that [type_converter] rejects. *)
Lemma write_class_def_ValueError (m : Model) (h : dict cls (list cls)) (fuel : nat)
    (c : cls) (f : TextIO) (W : gset cls) (msg : string) :
  write_class_def fuel m c h f W = Raise (ValueError msg) ->
  exists c' a, c' ∈ dict_keys h /\ a ∈ Class.attribute (m c') /\
               type_converter m a = Raise (ValueError msg).
Proof.
  revert c f W. induction fuel as [|fuel IH]; intros c f W Hrun; [done|].
  rewrite write_class_def_unfold in Hrun. destruct (decide (c ∈ W)); [done|].
  apply bind_Raise in Hrun as [Hrun | (gens & Hgens%dict_get_Ok & Hrun)].
  { unfold dict_get in Hrun. by destruct (dict_find c h). }
  apply bind_Raise in Hrun as [Hrun | ([f1 W1] & _ & Hrun)].
  { apply (for_Raise (fun _ => True)) in Hrun as (g & [f0 W0] & _ & _ & Hrun); [|done..].
    by eapply IH. }
  apply bind_Raise in Hrun as [Hrun | (f2 & _ & Hrun)]; [|done].
  apply write_attributes_Raise in Hrun as (a & Ha & Hrun).
  exists c, a. split; [|done]. apply dict_find_is_Some. by eexists.
Qed.

Lemma write_properties_ValueError (repr : string -> string) (m : Model) (c : cls)
    (f : TextIO) (enums : gmap string cls) (msg : string) :
  write_properties repr m c f enums = Raise (ValueError msg) ->
  exists a, a ∈ Class.attribute (m c) /\ type_converter m a = Raise (ValueError msg).
Proof.
  unfold write_properties. intros Hrun.
  apply bind_Raise in Hrun as [Hrun | ([f1 v1] & _ & Hrun)]; [|done].
  apply (for_Raise (fun _ => True)) in Hrun as (a & [f0 v0] & Ha & _ & Hrun); [|done..].
  exists a. split; [done|]. unfold write_property in Hrun.
  destruct (skipped a); [done|].
  apply bind_Raise in Hrun as [Hrun | (tv & _ & Hrun)]; [done|].
  by repeat case_match.
Qed.

(** C2: [type_converter] raises exactly when the property has neither a
    type nor a type value, and what it raises is a [ValueError]; a
    [ValueError] that ends a run of [generate] is the one [type_converter]
    raises for an attribute of one of the classes. *)
Theorem type_converter_only_failure :
  (forall m p e,
     type_converter m p = Raise e <->
     Property.type p = None /\ Property.typeValue p = None /\
     e = ValueError ("ERROR! type is not specified for property " ++ str (Property.name p))) /\
  (forall lookup_element repr fuel m classes msg,
     generate lookup_element repr fuel m classes = Raise (ValueError msg) ->
     exists c a, c ∈ classes /\ a ∈ Class.attribute (m c) /\
                 type_converter m a = Raise (ValueError msg)).
Proof.
  split; [apply type_converter_Raise|].
  intros lookup_element repr fuel m classes msg Hrun. unfold generate in Hrun.
  apply bind_Raise in Hrun as [Hrun | ([cs enums] & Hsel & Hrun)].
  { by apply select_classes_Raise in Hrun. }
  cbv beta iota zeta in Hrun.
  assert (forall c, c ∈ dict_keys (create_class_hierarchy m cs) -> c ∈ classes) as Hkeys.
  { intros c Hc%create_class_hierarchy_keys.
    apply select_classes_Ok in Hsel as [-> _].
    by apply elem_of_sorted, list_elem_of_filter in Hc as [_ Hc]. }
  fold (classes_loop fuel (create_class_hierarchy m cs)) in Hrun.
  apply bind_Raise in Hrun as [Hrun | ([[m1 f1] W1] & Hloop & Hrun)].
  - apply (for_Raise (fun st => same_classes m st.1.1)) in Hrun
      as (k & [[m0 f0] W0] & _ & Hm0 & Hrun); [| |apply same_classes_refl].
    + simpl in Hm0. apply bind_Raise in Hrun as [Hrun | ([f2 W2] & _ & Hrun)]; [|done].
      pose proof (sort_attribute_same m m0 k Hm0) as Hm0'.
      apply write_class_def_ValueError in Hrun as (c & a & Hc & Ha & Hrun).
      exists c, a. split; [by apply Hkeys|]. split.
      * by apply (same_classes_attribute m _ c a Hm0').
      * by rewrite <- (type_converter_same m _ a Hm0').
    + intros k [[m0 f0] W0] [[m2 f2] W2] _ Hm0 Hstep. simpl in *.
      apply bind_Ok in Hstep as ([f3 W3] & _ & Hstep). inversion Hstep; subst.
      by apply sort_attribute_same.
  - apply (classes_loop_emits _ _ m) in Hloop as (Hm1 & _); [|apply same_classes_refl].
    apply bind_Raise in Hrun as [Hrun | (f2 & _ & Hrun)]; [|done].
    apply (for_Raise (fun _ => True)) in Hrun as (c & f0 & Hc & _ & Hrun); [|done..].
    apply write_properties_ValueError in Hrun as (a & Ha & Hrun).
    exists c, a. split; [by apply Hkeys|]. split.
    + by apply (same_classes_attribute m m1 c a Hm1).
    + by rewrite <- (type_converter_same m m1 a Hm1).
Qed.

Lemma type_converter_only_failure_witness :
  exists msg,
    generate is_uml simple_repr 2 demo [5] = Raise (ValueError msg) /\
    exists c a, c ∈ [5] /\ a ∈ Class.attribute (demo c) /\
                type_converter demo a = Raise (ValueError msg).
Proof.
  eexists. split; [reflexivity|].
  apply (proj2 type_converter_only_failure is_uml simple_repr 2 demo [5]). reflexivity.
Defined.

(** ** The local variable [values] of [write_properties] *)

Section Values.
Variables (repr : string -> string) (m : Model) (c : cls) (enums : gmap string cls).







End Values.




(** ** ForkNodeItem *)

Import ActivityNodes.



Lemma filter_all {X : Type} (P : X -> Prop) `{forall x, Decision (P x)} (l : list X) :
  (forall x, x ∈ l -> P x) -> filter P l = l.
Proof.
  induction l as [|x l IH]; intros Hl; [done|].
  rewrite filter_cons_True by (apply Hl; left).
  rewrite IH; [done|]. intros y Hy. apply Hl. by right.
Qed.

Lemma remove_constraints (cs : list ConstraintObj) (w : World) :
  solver_constraints (foldl (fun w c => remove_constraint c w) w cs)
  = filter (fun c' => c'.1 ∉ cs.*1) (solver_constraints w).
Proof.
  revert w. induction cs as [|c cs IH]; intros w; simpl.
  - symmetry. apply filter_all. intros c' _. apply not_elem_of_nil.
  - rewrite IH. simpl. rewrite list_filter_filter. apply list_filter_iff.
    intros c'. rewrite not_elem_of_cons. tauto.
Qed.



(** C10: for a subject whose join specification is [None] the condition
    of [on_subject_notify] reads the value of [None] and fails; and no run of
    [on_subject_notify] that returns has set the join specification: what it
    returns is the update request on the state the method of [DiagramItem]
    left. *)
Theorem on_subject_notify_join_spec
    (DiagramItem_on_subject_notify request_update : World -> World) (w : World) :
  (subject (self (DiagramItem_on_subject_notify w)) = Some (JoinNode None) ->
   on_subject_notify DiagramItem_on_subject_notify request_update w = Raise AttributeError) /\
  (forall w',
     on_subject_notify DiagramItem_on_subject_notify request_update w = Ok w' ->
     w' = request_update (DiagramItem_on_subject_notify w)).
Proof.
  unfold on_subject_notify. split.
  - intros ->. reflexivity.
  - intros w'. destruct (subject (self (DiagramItem_on_subject_notify w))) as [[|[l|]]|];
      simpl; try done; by intros [= <-].
Qed.

Lemma on_subject_notify_join_spec_witness :
  on_subject_notify id id fork_world = Raise AttributeError.
Proof. apply (proj1 (on_subject_notify_join_spec id id fork_world)). reflexivity. Defined.

(** ** Fuel *)

Lemma bind_returns {A B : Type} (r : result A) (k : A -> result B) :
  returns r -> (forall a, r = Ok a -> returns (k a)) -> returns (r ≫= k).
Proof. destruct r as [a| |]; simpl; intros Hr Hk; [by apply Hk|done|done]. Qed.

Lemma for_returns {X S : Type} (xs : list X) (body : X -> S -> result S) (s : S) :
  (forall x t, x ∈ xs -> returns (body x t)) -> returns (for_ xs body s).
Proof.
  revert s. induction xs as [|x xs IH]; intros s Hbody; simpl; [done|].
  apply bind_returns; [apply Hbody; left|]. intros t _. apply IH.
  intros y u Hy. apply Hbody. by right.
Qed.

Lemma filter_returns {X : Type} (cond : X -> result bool) (xs : list X) :
  (forall x, returns (cond x)) -> returns (filter_ cond xs).
Proof.
  intros Hcond. induction xs as [|x xs IH]; simpl; [done|].
  apply bind_returns; [apply Hcond|]. intros b _. by apply bind_returns.
Qed.

Lemma mapM_returns {X Y : Type} (g : X -> result Y) (xs : list X) :
  (forall x, returns (g x)) -> returns (mapM g xs).
Proof.
  intros Hg. induction xs as [|x xs IH]; simpl; [done|].
  apply bind_returns; [apply Hg|]. intros b _. by apply bind_returns.
Qed.

Lemma type_converter_returns (m : Model) (a : Property.t) : returns (type_converter m a).
Proof. unfold type_converter. by repeat case_match. Qed.

Lemma write_attributes_returns (m : Model) (c : cls) (f : TextIO) :
  returns (write_attributes m c f).
Proof.
  rewrite write_attributes_class_body. apply bind_returns; [|done].
  unfold class_body. apply bind_returns; [|done]. apply mapM_returns.
  intros a. unfold attribute_chunk. destruct (skipped a); [done|].
  apply bind_returns; [apply type_converter_returns|done].
Qed.

Lemma write_properties_returns (repr : string -> string) (m : Model) (c : cls)
    (f : TextIO) (enums : gmap string cls) :
  returns (write_properties repr m c f enums).
Proof.
  unfold write_properties. apply bind_returns; [|by intros [f1 v1]].
  apply for_returns. intros a [f0 v0] _. unfold write_property.
  destruct (skipped a); [done|].
  apply bind_returns; [apply type_converter_returns|].
  intros tv _. by repeat case_match.
Qed.

Lemma select_classes_returns (m : Model) (classes : list cls) :
  returns (select_classes m classes).
Proof.
  unfold select_classes. simpl. apply bind_returns.
  - apply filter_returns. intros c. by case_match.
  - intros cs1 _. apply bind_returns; [|done].
    apply filter_returns. intros c. by case_match.
Qed.

Section Fuel.
Variables (m : Model) (h : dict cls (list cls)).

(** More fuel does not change what a visit returns. *)
Lemma write_class_def_fuel (fuel : nat) (c : cls) (f : TextIO) (W : gset cls) :
  returns (write_class_def fuel m c h f W) ->
  write_class_def (S fuel) m c h f W = write_class_def fuel m c h f W.
Proof.
  revert c f W. induction fuel as [|fuel IH]; intros c f W Hret; [done|].
  rewrite (write_class_def_unfold (S fuel)), (write_class_def_unfold fuel).
  rewrite write_class_def_unfold in Hret.
  destruct (decide (c ∈ W)) as [|Hc]; [done|].
  destruct (dict_get h c) as [gens| |]; rsimpl; [|done..]. rsimpl in Hret.
  assert (generalizations_loop (S fuel) m h gens (f, W)
          = generalizations_loop fuel m h gens (f, W)) as ->; [|done].
  assert (returns (generalizations_loop fuel m h gens (f, W))) as Hloop.
  { intros Heq. rewrite Heq in Hret. by apply Hret. }
  clear Hret Hc. revert f W Hloop.
  induction gens as [|g gens IHg]; intros f W Hloop; [done|].
  rewrite !generalizations_loop_cons. rewrite generalizations_loop_cons in Hloop.
  assert (returns (write_class_def fuel m g h f W)) as Hg.
  { intros Heq. rewrite Heq in Hloop. by apply Hloop. }
  rewrite (IH _ _ _ Hg).
  destruct (write_class_def fuel m g h f W) as [[f0 W0]| |]; rsimpl; [|done..].
  rsimpl in Hloop. by apply IHg.
Qed.

(** When the generalizations go down along a rank, a visit with more fuel
    than the rank of the class ends. *)
Lemma write_class_def_returns (rank : cls -> nat) (fuel : nat) (c : cls)
    (f : TextIO) (W : gset cls) :
  (forall c g, generalization h c g -> rank g < rank c) ->
  rank c < fuel -> returns (write_class_def fuel m c h f W).
Proof.
  intros Hrank. revert c f W. induction fuel as [|fuel IH]; intros c f W Hc; [lia|].
  rewrite write_class_def_unfold. destruct (decide (c ∈ W)); [done|].
  unfold dict_get. destruct (dict_find c h) as [gens|] eqn:Hgens; rsimpl; [|done].
  apply bind_returns.
  - apply for_returns. intros g [f0 W0] Hg. apply IH.
    assert (rank g < rank c) by (apply Hrank; by exists gens). lia.
  - intros [f1 W1] _. apply bind_returns; [apply write_attributes_returns|done].
Qed.

End Fuel.

(** With enough fuel a run of [generate] on a hierarchy without cycles
    ends. *)
Lemma generate_returns (lookup_element : string -> bool) (repr : string -> string)
    (rank : cls -> nat) (fuel : nat) (m : Model) (classes : list cls) :
  (forall cs c g, generalization (create_class_hierarchy m cs) c g -> rank g < rank c) ->
  (forall c, c ∈ classes -> rank c < fuel) ->
  returns (generate lookup_element repr fuel m classes).
Proof.
  intros Hrank Hfuel. unfold generate.
  apply bind_returns; [apply select_classes_returns|].
  intros [cs enums] Hsel. cbv beta iota zeta.
  apply bind_returns.
  - apply for_returns. intros c [[m0 f0] W0] Hc.
    apply bind_returns; [|by intros [f1 W1]].
    apply (write_class_def_returns _ _ rank); [apply Hrank|].
    apply Hfuel. apply create_class_hierarchy_keys in Hc.
    apply select_classes_Ok in Hsel as [-> _].
    by apply elem_of_sorted, list_elem_of_filter in Hc as [_ Hc].
  - intros [[m1 f1] W1] _. apply bind_returns; [|done].
    apply for_returns. intros c f0 _. apply write_properties_returns.
Qed.

(** * Further properties *)

(** ** The filter step, continued *)

Lemma enumerations_last (m : Model) (l : list cls) (d : gmap string cls) (n : string) :
  foldl (fun d c => <[Class.name (m c) := c]> d) d l !! n
  = match last (filter (fun c => Class.name (m c) = n) l) with
    | Some c => Some c
    | None => d !! n
    end.
Proof.
  revert d. induction l as [|c l IH]; intros d; [done|].
  cbn [foldl]. rewrite IH, filter_cons.
  destruct (decide (Class.name (m c) = n)) as [Hn|Hn].
  - rewrite last_cons. destruct (last (filter _ l)); [done|].
    by rewrite <- Hn, lookup_insert_eq.
  - destruct (last (filter _ l)); [done|]. by rewrite lookup_insert_ne.
Qed.

Lemma filter_none {X : Type} (P : X -> Prop) `{forall x, Decision (P x)} (l : list X) :
  (forall x, x ∈ l -> ~ P x) -> filter P l = [].
Proof.
  induction l as [|x l IH]; intros Hl; [done|].
  rewrite filter_cons_False by (apply Hl; left).
  apply IH. intros y Hy. apply Hl. by right.
Qed.

(** X1: of the classes whose name contains Kind, [find_enumerations] keeps
    under each name the last one of the list; the other classes stay in the
    list, in their order, and none of their names is a key of the
    enumerations. *)
Theorem find_enumerations_last (m : Model) (classes : list cls) (n : string) :
  (find_enumerations m classes).2 !! n
  = last (filter (fun c => Class.name (m c) = n /\ contains "Kind" n = true) classes) /\
  (find_enumerations m classes).1 `sublist_of` classes /\
  Forall (fun c => (find_enumerations m classes).2 !! Class.name (m c) = None)
         (find_enumerations m classes).1.
Proof.
  assert (forall n', (find_enumerations m classes).2 !! n'
            = last (filter (fun c => Class.name (m c) = n' /\ contains "Kind" n' = true)
                           classes)) as Hlast.
  { intros n'. simpl. rewrite enumerations_last, lookup_empty, list_filter_filter.
    rewrite (list_filter_iff _ (fun c => Class.name (m c) = n' /\ contains "Kind" n' = true)).
    - by destruct (last _).
    - intros c. split; [by intros [<- ?]|by intros [<- ?]]. }
  split; [apply Hlast|]. split; [apply sublist_filter|].
  apply Forall_forall. intros c [Hkind _]%list_elem_of_filter. rewrite Hlast.
  rewrite (filter_none _ classes); [done|].
  intros c' _ [_ Hkind']. congruence.
Qed.



(** ** The keys of the hierarchy *)

Lemma dict_keys_fresh {V : Type} (v : cls -> V) (cs : list cls) (h0 : dict cls V) :
  NoDup (dict_keys h0 ++ cs) ->
  dict_keys (foldl (fun h c => dict_set c (v c) h) h0 cs) = (dict_keys h0 ++ cs)%list.
Proof.
  revert h0. induction cs as [|c cs IH]; intros h0 Hnd; simpl.
  - by rewrite app_nil_r.
  - apply NoDup_app in Hnd as (Hh0 & Hdisj & [Hc Hcs]%NoDup_cons).
    assert (c ∉ dict_keys h0) as Hfresh by (intros Hin; apply (Hdisj c Hin); left).
    rewrite IH; rewrite dict_keys_set, decide_False by done.
    + by rewrite <- app_assoc.
    + apply NoDup_app. split; [|split; [|done]].
      * apply NoDup_app. split; [done|]. split; [|apply NoDup_singleton].
        by intros x Hx ->%list_elem_of_singleton.
      * intros x [Hx| ->%list_elem_of_singleton]%elem_of_app Hx'; [|done].
        apply (Hdisj x Hx). by right.
Qed.

(** X3: for a class list without repetition, the keys of the hierarchy are
    the classes in the order of the list; so in [generate] the loops over
    the keys run through the kept classes in order of name. *)
Theorem hierarchy_keys_in_order (m : Model) (classes : list cls) :
  NoDup classes ->
  dict_keys (create_class_hierarchy m classes) = classes /\
  forall cs enums,
    select_classes m classes = Ok (cs, enums) ->
    dict_keys (create_class_hierarchy m cs)
    = sorted (fun c => Class.name (m c)) (filter (kept m) classes).
Proof.
  intros Hnd. split.
  - unfold create_class_hierarchy. fold (parents m). by rewrite dict_keys_fresh.
  - intros cs enums [-> _]%select_classes_Ok. unfold create_class_hierarchy.
    fold (parents m). rewrite dict_keys_fresh; [done|]. simpl.
    rewrite sorted_perm. by apply NoDup_filter.
Qed.

Lemma hierarchy_keys_in_order_witness :
  dict_keys (create_class_hierarchy demo [2; 0; 3]) = [2; 0; 3].
Proof.
  refine (proj1 (hierarchy_keys_in_order demo [2; 0; 3] _)).
  apply (bool_decide_unpack _). vm_compute. exact I.
Defined.

(** ** The written set of [write_class_def] *)

Section Written.
Variables (m : Model) (h : dict cls (list cls)).

Lemma write_class_def_subseteq (fuel : nat) (c : cls) (f : TextIO) (W : gset cls)
    (f' : TextIO) (W' : gset cls) :
  write_class_def fuel m c h f W = Ok (f', W') -> W ⊆ W'.
Proof.
  intros Hrun. apply write_class_def_emits in Hrun as (order & Hemits & _).
  by eapply emits_subseteq.
Qed.

Lemma generalizations_loop_subseteq (fuel : nat) (gens : list cls) (f : TextIO)
    (W : gset cls) (f1 : TextIO) (W1 : gset cls) :
  generalizations_loop fuel m h gens (f, W) = Ok (f1, W1) -> W ⊆ W1.
Proof.
  revert f W. induction gens as [|g gens IH]; intros f W Hloop.
  - by inversion Hloop.
  - rewrite generalizations_loop_cons in Hloop.
    apply bind_Ok in Hloop as ([f0 W0] & Hg & Hloop).
    apply write_class_def_subseteq in Hg. apply IH in Hloop. set_solver.
Qed.

Lemma unwritten_path_mono (W W0 : gset cls) (c x : cls) :
  W ⊆ W0 -> unwritten_path h W0 c x -> unwritten_path h W c x.
Proof.
  intros HW. induction 1 as [c Hc|c g x Hc Hg _ IH].
  - apply unwritten_here. set_solver.
  - eapply unwritten_step; [set_solver|done..].
Qed.

Lemma write_class_def_reached (fuel : nat) (c : cls) (f : TextIO) (W : gset cls)
    (f' : TextIO) (W' : gset cls) :
  write_class_def fuel m c h f W = Ok (f', W') ->
  forall x, x ∈ W' -> x ∈ W \/ unwritten_path h W c x.
Proof.
  revert c f W f' W'. induction fuel as [|fuel IH]; intros c f W f' W' Hrun; [done|].
  rewrite write_class_def_unfold in Hrun.
  destruct (decide (c ∈ W)) as [Hc|Hc].
  { inversion Hrun; subst. by left. }
  apply bind_Ok in Hrun as (gens & Hgens%dict_get_Ok & Hrun).
  apply bind_Ok in Hrun as ([f1 W1] & Hloop & Hrun).
  apply bind_Ok in Hrun as (f2 & _ & Hrun). inversion Hrun; subst f' W'; clear Hrun.
  assert (forall x, x ∈ W1 -> x ∈ W \/ exists g, g ∈ gens /\ unwritten_path h W g x) as Hloop'.
  { clear Hgens Hc. revert f W Hloop.
    induction gens as [|g gens IHg]; intros f W Hloop x Hx.
    - inversion Hloop; subst. by left.
    - rewrite generalizations_loop_cons in Hloop.
      apply bind_Ok in Hloop as ([f0 W0] & Hg & Hloop).
      destruct (IHg _ _ Hloop x Hx) as [Hx0|(g' & Hg' & Hpath)].
      + destruct (IH _ _ _ _ _ Hg x Hx0) as [?|Hpath]; [by left|].
        right. exists g. split; [left|done].
      + right. exists g'. split; [by right|].
        eapply unwritten_path_mono; [|exact Hpath]. by eapply write_class_def_subseteq. }
  intros x [->%elem_of_singleton|Hx]%elem_of_union.
  - right. by apply unwritten_here.
  - destruct (Hloop' x Hx) as [?|(g & Hg & Hpath)]; [by left|].
    right. eapply unwritten_step; [done| |exact Hpath]. by exists gens.
Qed.

(** X4: a visit that returns has added to [cls_written] exactly the
    classes that can be reached from the visited class along generalizations
    through classes that were not written; for a class that was written, none. *)
Theorem write_class_def_written (fuel : nat) (c : cls) (f : TextIO) (W : gset cls)
    (f' : TextIO) (W' : gset cls) :
  write_class_def fuel m c h f W = Ok (f', W') ->
  forall x, x ∈ W' <-> x ∈ W \/ unwritten_path h W c x.
Proof.
  intros Hrun x. split; [by eapply write_class_def_reached|].
  pose proof (write_class_def_emits m h _ _ _ _ _ _ Hrun) as (order & Hemits & Hc & _).
  destruct Hemits as (_ & HW' & _ & _ & Hafter).
  intros [Hx|Hpath]; [rewrite HW'; apply elem_of_union; by right|].
  clear Hrun. revert Hc.
  induction Hpath as [y Hy|y g x Hy (ps & Hps & Hg) _ IH]; [done|].
  intros Hin. apply IH. rewrite HW' in Hin.
  apply elem_of_union in Hin as [Hin%elem_of_list_to_set|Hin]; [|done].
  apply list_elem_of_split in Hin as (l1 & l2 & Heq).
  destruct (Hafter l1 y l2 ps g Heq Hps Hg) as [HgW|Hgl].
  - rewrite HW'. apply elem_of_union. by right.
  - rewrite HW', Heq. apply elem_of_union. left. apply elem_of_list_to_set.
    apply elem_of_app. by left.
Qed.

(** X5: a visit of a class on a cycle of unwritten classes, or of a class
    that leads to one, never returns normally, whatever the fuel. *)
Theorem write_class_def_cycle (S : cls -> Prop) (fuel : nat) (c : cls) (f : TextIO)
    (W : gset cls) (r : TextIO * gset cls) :
  S c ->
  (forall s, S s -> (s ∉ W) /\ exists g, generalization h s g /\ S g) ->
  write_class_def fuel m c h f W ≠ Ok r.
Proof.
  intros Hc HS Hrun. destruct r as [f' W'].
  apply (write_class_def_blocked m h fuel S) in Hrun as [Hnc _]; [done|].
  intros s Hs. destruct (HS s Hs) as (Hw & g & (ps & Hps & Hg) & Hsg).
  split; [done|]. exists ps, g. split; [done|]. split; [done|by left].
Qed.

End Written.

Lemma write_class_def_written_witness :
  exists f' (W' : gset cls),
    write_class_def 3 demo 2 [(3, []); (2, [3])] [] ∅ = Ok (f', W') /\
    (3 ∈ W' <-> 3 ∈ (∅ : gset cls) \/ unwritten_path [(3, []); (2, [3])] ∅ 2 3).
Proof.
  eexists _, _. split; [reflexivity|].
  eapply (write_class_def_written demo [(3, []); (2, [3])] 3 2 [] ∅). reflexivity.
Defined.

Lemma write_class_def_cycle_witness :
  write_class_def 5 demo 2 [(2, [3]); (3, [2])] [] ∅ ≠ Ok ([], ∅).
Proof.
  apply (write_class_def_cycle demo [(2, [3]); (3, [2])] (fun s => s = 2 \/ s = 3)).
  - by left.
  - intros s [->| ->]; (split; [apply not_elem_of_empty|]).
    + exists 3. split; [|by right]. exists [3]. split; [reflexivity|]. apply elem_of_cons. by left.
    + exists 2. split; [|by left]. exists [2]. split; [reflexivity|]. apply elem_of_cons. by left.
Defined.

(** ** Depth of the recursion *)

Lemma write_class_def_fuel_add (m : Model) (h : dict cls (list cls)) (fuel k : nat)
    (c : cls) (f : TextIO) (W : gset cls) :
  returns (write_class_def fuel m c h f W) ->
  write_class_def (fuel + k) m c h f W = write_class_def fuel m c h f W.
Proof.
  intros Hret. induction k as [|k IH].
  - by rewrite Nat.add_0_r.
  - rewrite Nat.add_succ_r, write_class_def_fuel; [done|]. by rewrite IH.
Qed.

Lemma generalization_hierarchy (m : Model) (cs : list cls) (c g : cls) :
  generalization (create_class_hierarchy m cs) c g <->
  c ∈ cs /\ (g ∈ Class.general (m c) \/ g ∈ get_class_extensions m c).
Proof.
  unfold generalization. setoid_rewrite create_class_hierarchy_find. split.
  - intros (ps & Hps & Hg). destruct (decide (c ∈ cs)); [|done].
    inversion Hps; subst ps. split; [done|].
    by apply elem_of_sorted, elem_of_app in Hg.
  - intros [Hc Hg]. exists (parents m c). rewrite decide_True by done. split; [done|].
    by apply elem_of_sorted, elem_of_app.
Qed.

Lemma for_ext_in {X S : Type} (body body' : X -> S -> result S) (xs : list X) (s : S) :
  (forall x t, x ∈ xs -> body x t = body' x t) -> for_ xs body s = for_ xs body' s.
Proof.
  revert s. induction xs as [|x xs IH]; intros s Hb; simpl; [done|].
  rewrite Hb by left. destruct (body' x s); simpl; [|done..].
  apply IH. intros y u Hy. apply Hb. by right.
Qed.

(** X6: when the generalizations and meta classes of every class have a
    smaller rank than the class, the recursion of [write_class_def] is as
    deep as the rank at most: with more fuel than the rank of the class the
    visit ends, and so does [generate] with more fuel than the rank of every
    class; still more fuel gives the same result. *)
Theorem write_class_def_terminates (rank : cls -> nat) (m : Model) :
  (forall c g, g ∈ Class.general (m c) \/ g ∈ get_class_extensions m c -> rank g < rank c) ->
  (forall cs fuel c f (W : gset cls) k,
     rank c < fuel ->
     returns (write_class_def fuel m c (create_class_hierarchy m cs) f W) /\
     write_class_def (fuel + k) m c (create_class_hierarchy m cs) f W
     = write_class_def fuel m c (create_class_hierarchy m cs) f W) /\
  (forall lookup_element repr fuel classes k,
     (forall c, c ∈ classes -> rank c < fuel) ->
     returns (generate lookup_element repr fuel m classes) /\
     generate lookup_element repr (fuel + k) m classes
     = generate lookup_element repr fuel m classes).
Proof.
  intros Hrank.
  assert (forall cs c g, generalization (create_class_hierarchy m cs) c g -> rank g < rank c)
    as Hrank'.
  { intros cs c g [_ Hg]%generalization_hierarchy. by apply Hrank. }
  assert (forall m' cs fuel c f (W : gset cls) k,
            rank c < fuel ->
            returns (write_class_def fuel m' c (create_class_hierarchy m cs) f W) /\
            write_class_def (fuel + k) m' c (create_class_hierarchy m cs) f W
            = write_class_def fuel m' c (create_class_hierarchy m cs) f W) as Hvisit.
  { intros m' cs fuel c f W k Hc.
    assert (returns (write_class_def fuel m' c (create_class_hierarchy m cs) f W)) as Hret
      by (apply (write_class_def_returns _ _ rank); [apply Hrank'|done]).
    split; [done|]. by apply write_class_def_fuel_add. }
  split; [apply Hvisit|].
  intros lookup_element repr fuel classes k Hfuel.
  split; [by apply (generate_returns _ _ rank)|].
  unfold generate. destruct (select_classes m classes) as [[cs enums]| |] eqn:Hsel; [|done..].
  rsimpl. cbv beta iota zeta.
  rewrite (for_ext_in _
             (fun c '(m0, f0, W0) =>
                let m1 := sort_attribute m0 c in
                '(f1, W1) ← write_class_def fuel m1 c (create_class_hierarchy m cs) f0 W0;
                Ok (m1, f1, W1))); [done|].
  intros c [[m0 f0] W0] Hc. cbv zeta.
  destruct (Hvisit (sort_attribute m0 c) cs fuel c f0 W0 k) as [_ ->]; [|done].
  apply Hfuel. apply create_class_hierarchy_keys in Hc.
  apply select_classes_Ok in Hsel as [-> _].
  by apply elem_of_sorted, list_elem_of_filter in Hc as [_ Hc].
Qed.

Lemma write_class_def_terminates_witness :
  returns (generate is_uml simple_repr 2 demo [0; 1; 2; 3; 4]) /\
  generate is_uml simple_repr (2 + 1) demo [0; 1; 2; 3; 4]
  = generate is_uml simple_repr 2 demo [0; 1; 2; 3; 4].
Proof.
  refine (proj2 (write_class_def_terminates demo_rank demo _) is_uml simple_repr 2
                [0; 1; 2; 3; 4] 1 _).
  - intros c g Hg. do 6 (try destruct c as [|c]); vm_compute in Hg;
      destruct Hg as [Hg|Hg]; apply list_elem_of_In in Hg; simpl in Hg;
      try done; destruct Hg as [<-|[]]; vm_compute; lia.
  - intros c Hc. apply list_elem_of_In in Hc. simpl in Hc.
    repeat destruct Hc as [<-|Hc]; try done; vm_compute; lia.
Defined.

(** ** Missing keys *)

Lemma closed_mono (h : dict cls (list cls)) (W W' : gset cls) :
  closed h W -> W ⊆ W' -> closed h W'.
Proof. intros Hh HW c g Hg. destruct (Hh c g Hg); [by left|right; set_solver]. Qed.

Lemma write_class_def_closed (m : Model) (h : dict cls (list cls)) (fuel : nat)
    (c : cls) (f : TextIO) (W : gset cls) :
  closed h W -> c ∈ dict_keys h \/ c ∈ W ->
  write_class_def fuel m c h f W ≠ Raise KeyError.
Proof.
  revert c f W. induction fuel as [|fuel IH]; intros c f W Hclosed Hc Hrun; [done|].
  rewrite write_class_def_unfold in Hrun. destruct (decide (c ∈ W)) as [|HcW]; [done|].
  destruct Hc as [Hc|Hc]; [|done].
  apply dict_find_is_Some in Hc as [gens Hgens].
  unfold dict_get in Hrun. rewrite Hgens in Hrun. rsimpl in Hrun.
  apply bind_Raise in Hrun as [Hrun | ([f1 W1] & _ & Hrun)].
  - apply (for_Raise (fun st => W ⊆ st.2)) in Hrun
      as (g & [f0 W0] & Hg & HW0 & Hrun); [| |done].
    + apply (IH g f0 W0); [by eapply closed_mono| |done].
      destruct (Hclosed c g) as [?|?]; [by exists gens|by left|right; set_solver].
    + intros g [f0 W0] [f2 W2] _ HW0 Hstep. simpl in *.
      apply write_class_def_subseteq in Hstep. set_solver.
  - apply bind_Raise in Hrun as [Hrun | (f2 & _ & Hrun)]; [|done].
    apply write_attributes_Raise in Hrun as (a & _ & Hrun).
    by apply type_converter_Raise in Hrun as (_ & _ & ?).
Qed.

Lemma write_properties_not_KeyError (repr : string -> string) (m : Model) (c : cls)
    (f : TextIO) (enums : gmap string cls) :
  write_properties repr m c f enums ≠ Raise KeyError.
Proof.
  unfold write_properties. intros Hrun.
  apply bind_Raise in Hrun as [Hrun | ([f1 v1] & _ & Hrun)]; [|done].
  apply (for_Raise (fun _ => True)) in Hrun as (a & [f0 v0] & _ & _ & Hrun); [|done..].
  unfold write_property in Hrun. destruct (skipped a); [done|].
  apply bind_Raise in Hrun as [Hrun | (tv & _ & Hrun)].
  - by apply type_converter_Raise in Hrun as (_ & _ & ?).
  - by repeat case_match.
Qed.

(** X7: a visit of a class that is neither written nor a key of the
    hierarchy fails with a [KeyError]; when every generalization and meta
    class in the hierarchy is a key or written, no visit of a key fails so;
    and [generate] does not fail so when the generalizations and meta classes
    of the kept classes are kept classes. *)
Theorem write_class_def_KeyError :
  (forall fuel m c h f (W : gset cls),
     c ∉ W -> dict_find c h = None ->
     write_class_def (S fuel) m c h f W = Raise KeyError) /\
  (forall fuel m c h f (W : gset cls),
     closed h W -> c ∈ dict_keys h \/ c ∈ W ->
     write_class_def fuel m c h f W ≠ Raise KeyError) /\
  (forall lookup_element repr fuel m classes,
     (forall c g, c ∈ classes -> kept m c ->
                  g ∈ Class.general (m c) \/ g ∈ get_class_extensions m c ->
                  g ∈ classes /\ kept m g) ->
     generate lookup_element repr fuel m classes ≠ Raise KeyError).
Proof.
  split; [|split].
  - intros fuel m c h f W Hc Hfind. rewrite write_class_def_unfold.
    rewrite decide_False by done. unfold dict_get. by rewrite Hfind.
  - intros fuel m c h f W. apply write_class_def_closed.
  - intros lookup_element repr fuel m classes Hkept Hrun. unfold generate in Hrun.
    apply bind_Raise in Hrun as [Hrun | ([cs enums] & Hsel & Hrun)].
    { by apply select_classes_Raise in Hrun. }
    cbv beta iota zeta in Hrun.
    pose proof Hsel as [Hcs _]%select_classes_Ok.
    assert (forall c, c ∈ cs <-> c ∈ classes /\ kept m c) as Hin.
    { intros c. rewrite Hcs, elem_of_sorted, list_elem_of_filter. tauto. }
    assert (forall W : gset cls, closed (create_class_hierarchy m cs) W) as Hclosed.
    { intros W c g [Hc Hg]%generalization_hierarchy. left.
      apply create_class_hierarchy_keys, Hin. apply Hin in Hc as [Hc Hk]. by eapply Hkept. }
    fold (classes_loop fuel (create_class_hierarchy m cs)) in Hrun.
    apply bind_Raise in Hrun as [Hrun | ([[m1 f1] W1] & _ & Hrun)].
    + apply (for_Raise (fun st => same_classes m st.1.1)) in Hrun
        as (k & [[m0 f0] W0] & Hk & Hm0 & Hrun); [| |apply same_classes_refl].
      * simpl in Hm0. apply bind_Raise in Hrun as [Hrun | ([f2 W2] & _ & Hrun)]; [|done].
        rewrite (write_class_def_same m) in Hrun by (by apply sort_attribute_same).
        apply write_class_def_closed in Hrun; [done|apply Hclosed|by left].
      * intros k [[m0 f0] W0] [[m2 f2] W2] _ Hm0 Hstep. simpl in *.
        apply bind_Ok in Hstep as ([f3 W3] & _ & Hstep). inversion Hstep; subst.
        by apply sort_attribute_same.
    + apply bind_Raise in Hrun as [Hrun | (f2 & _ & Hrun)]; [|done].
      apply (for_Raise (fun _ => True)) in Hrun as (c & f0 & _ & _ & Hrun); [|done..].
      by apply write_properties_not_KeyError in Hrun.
Qed.

Lemma write_class_def_KeyError_witness :
  write_class_def 1 demo 0 [(2, [3])] [] ∅ = Raise KeyError /\
  write_class_def 3 demo 2 [(3, []); (2, [3])] [] ∅ ≠ Raise KeyError.
Proof.
  split.
  - apply (proj1 write_class_def_KeyError 0 demo 0 [(2, [3])] [] ∅).
    + apply not_elem_of_empty.
    + reflexivity.
  - apply (proj1 (proj2 write_class_def_KeyError) 3 demo 2 [(3, []); (2, [3])] [] ∅).
    + intros c g (ps & Hps & Hg). left. simpl in Hps.
      repeat case_decide; simplify_eq; apply list_elem_of_In in Hg; simpl in Hg;
        try done; destruct Hg as [<-|[]]; apply elem_of_cons; by left.
    + left. apply elem_of_cons. right. apply elem_of_cons. by left.
Defined.

(** X8: when [generate] returns, the generalizations and the meta classes
    of every class it has defined are kept classes: each of them is imported
    or defined itself. *)
Theorem generate_closed (lookup_element : string -> bool) (repr : string -> string)
    (fuel : nat) (m : Model) (classes : list cls) (f : TextIO) (c g : cls) :
  generate lookup_element repr fuel m classes = Ok f ->
  c ∈ classes -> kept m c -> lookup_element (Class.name (m c)) = false ->
  g ∈ Class.general (m c) \/ g ∈ get_class_extensions m c ->
  g ∈ classes /\ kept m g.
Proof.
  intros Hrun Hc Hk Huml Hg.
  apply generate_Ok in Hrun as (cs & enums & batches & Hsel & Hgen).
  destruct Hgen as (_ & _ & Horder & Hafter & _).
  apply select_classes_Ok in Hsel as [Hcs _].
  assert (forall x, x ∈ cs <-> x ∈ classes /\ kept m x) as Hin.
  { intros x. rewrite Hcs, elem_of_sorted, list_elem_of_filter. tauto. }
  assert (c ∈ List.concat batches) as Hdef.
  { apply Horder. split; [by apply Hin|].
    unfold filter_uml_classes. rewrite list_elem_of_filter. intros [Hl _]. congruence. }
  apply list_elem_of_split in Hdef as (l1 & l2 & Heq).
  assert (generalization (create_class_hierarchy m cs) c g) as (ps & Hps & Hgps).
  { apply generalization_hierarchy. split; [by apply Hin|done]. }
  apply Hin. destruct (Hafter l1 c l2 ps g Heq Hps Hgps) as [Hu|Hl].
  - apply elem_of_list_to_set in Hu. unfold filter_uml_classes in Hu.
    by apply list_elem_of_filter in Hu as [_ Hu].
  - apply (Horder g). rewrite Heq. apply elem_of_app. by left.
Qed.

Lemma generate_closed_witness : 3 ∈ [2; 3] /\ kept demo 3.
Proof.
  apply (generate_closed is_uml simple_repr 2 demo [2; 3] _ 2 3 eq_refl).
  - apply elem_of_cons. by left.
  - by repeat split.
  - reflexivity.
  - left. apply elem_of_cons. by left.
Defined.

(** ** The lines of a class definition *)

Lemma length_omap_filter {X Y : Type} (g : X -> option Y) (l : list X) :
  List.length (omap g l) = List.length (filter (fun x => is_Some (g x)) l).
Proof.
  induction l as [|x l IH]; [done|]. rewrite filter_cons.
  change (omap g (x :: l)) with (match g x with
                                 | Some y => y :: omap g l
                                 | None => omap g l
                                 end).
  destruct (g x) as [y|] eqn:Hy.
  - rewrite decide_True by (by eexists). simpl. by rewrite IH.
  - rewrite decide_False by (by intros [? ?]). done.
Qed.

(** X9: when [write_attributes] returns, every attribute it did not skip
    had a type; it has written one line for each attribute that is named,
    not named baseClass, not derived and of a type with a non-empty name, and
    one line for each operation; or, if there is none of these, one line of
    pass: a class definition is never left without a body. *)
Theorem write_attributes_lines (m : Model) (c : cls) (f f' : TextIO) :
  write_attributes m c f = Ok f' ->
  (exists out,
     f' = (f ++ out)%list /\
     List.length out
     = Nat.max 1 (List.length (filter (fun a => is_Some (attribute_entry m a))
                                 (Class.attribute (m c)))
                  + List.length (Class.ownedOperation (m c)))) /\
  Forall (fun a => skipped a = true \/ exists tv, type_converter m a = Ok tv)
         (Class.attribute (m c)).
Proof.
  rewrite write_attributes_class_body. intros Hrun.
  apply bind_Ok in Hrun as (out & Hbody & Hrun). inversion Hrun; subst f'; clear Hrun.
  unfold class_body in Hbody. apply bind_Ok in Hbody as (chunks & Hchunks & Hbody).
  split.
  - exists out. split; [done|].
    rewrite (mapM_attribute_chunk _ _ _ Hchunks) in Hbody.
    assert (List.length (omap (attribute_entry m) (sorted name_or_empty (Class.attribute (m c))))
            = List.length (filter (fun a => is_Some (attribute_entry m a))
                             (Class.attribute (m c)))) as Hlen.
    { rewrite <- length_omap_filter. apply Permutation_length.
      by rewrite (sorted_perm name_or_empty). }
    rewrite <- Hlen.
    destruct (map _ _ ++ map _ _)%list as [|l ls] eqn:Hls.
    + inversion Hbody; subst out. apply (f_equal (@List.length string)) in Hls.
      rewrite length_app, !length_map in Hls. simpl in Hls. simpl. lia.
    + inversion Hbody; subst out. apply (f_equal (@List.length string)) in Hls.
      rewrite length_app, !length_map in Hls. simpl in Hls. simpl List.length. lia.
  - apply Forall_forall. intros a Ha.
    apply (elem_of_sorted name_or_empty) in Ha.
    clear Hbody. revert chunks Hchunks.
    induction (sorted name_or_empty (Class.attribute (m c))) as [|b l IH];
      intros chunks Hchunks; [by apply elem_of_nil in Ha|].
    simpl in Hchunks. apply bind_Ok in Hchunks as (ch & Hch & Hchunks).
    apply bind_Ok in Hchunks as (chs & Hchs & _).
    apply elem_of_cons in Ha as [->|Ha]; [|by eapply IH].
    unfold attribute_chunk in Hch. destruct (skipped b); [by left|].
    apply bind_Ok in Hch as (tv & Htv & _). right. by exists tv.
Qed.

Lemma write_attributes_lines_witness :
  exists f' out,
    write_attributes demo 0 [] = Ok f' /\ f' = ([] ++ out)%list /\
    List.length out = Nat.max 1 (List.length (filter (fun a => is_Some (attribute_entry demo a))
                                           (Class.attribute (demo 0)))
                            + List.length (Class.ownedOperation (demo 0))).
Proof.
  eexists. 
  destruct (write_attributes_lines demo 0 [] _ eq_refl) as [(out & Hout & Hlen) _].
  exists out. split; [reflexivity|]. split; [exact Hout|exact Hlen].
Defined.

(** ** The whole output of [generate] *)

Lemma sorted_model_attribute (m : Model) (keys : list cls) (c : cls) :
  Class.attribute (sorted_model m keys c)
  = if decide (c ∈ keys) then sorted name_or_empty (Class.attribute (m c))
    else Class.attribute (m c).
Proof.
  unfold sorted_model. revert m. induction keys as [|k keys IH]; intros m.
  - simpl. destruct (decide (c ∈ [])) as [Hc|]; [by apply elem_of_nil in Hc|done].
  - cbn [foldl]. rewrite IH. unfold sort_attribute.
    destruct (decide (c ∈ keys)) as [Hc|Hc].
    + rewrite (decide_True (P := c ∈ k :: keys)) by (by right).
      destruct (decide (c = k)) as [->|]; [|done]. simpl. apply sorted_idemp.
    + destruct (decide (c = k)) as [->|Hne].
      * by rewrite (decide_True (P := k ∈ k :: keys)) by left.
      * rewrite (decide_False (P := c ∈ k :: keys)); [done|]. by intros [?|?]%elem_of_cons.
Qed.

Lemma sorted_model_same (m : Model) (keys : list cls) :
  same_classes m (sorted_model m keys).
Proof.
  unfold sorted_model.
  assert (forall m', same_classes m m' -> same_classes m (foldl sort_attribute m' keys))
    as Hgen.
  { induction keys as [|k keys IH]; intros m' Hm; [done|].
    cbn [foldl]. by apply IH, sort_attribute_same. }
  apply Hgen, same_classes_refl.
Qed.

Lemma classes_loop_model (fuel : nat) (h : dict cls (list cls)) (keys : list cls)
    (m : Model) (f : TextIO) (W : gset cls) (m' : Model) (f' : TextIO) (W' : gset cls) :
  classes_loop fuel h keys (m, f, W) = Ok (m', f', W') -> m' = sorted_model m keys.
Proof.
  revert m f W. induction keys as [|k keys IH]; intros m f W Hrun.
  - by inversion Hrun.
  - unfold classes_loop in Hrun. simpl in Hrun. fold (classes_loop fuel h keys) in Hrun.
    apply bind_Ok in Hrun as ([[m1 f1] W1] & Hk & Hrun).
    apply bind_Ok in Hk as ([f1' W1'] & _ & Heq). inversion Heq; subst m1 f1' W1'.
    by apply IH in Hrun.
Qed.

Section Frame.
Variables (repr : string -> string) (m : Model) (enums : gmap string cls).

Lemma write_property_frame (c : cls) (a : Property.t) (f : TextIO)
    (v : option (list (option string))) :
  write_property repr m c enums a (f, v)
  = r ← write_property repr m c enums a ([], v); Ok ((f ++ r.1)%list, r.2).
Proof.
  unfold write_property. destruct (skipped a); rsimpl; [by rewrite app_nil_r|].
  destruct (type_converter m a) as [tv| |]; rsimpl; [|done..].
  repeat case_match; rsimpl; unfold write; simpl; by rewrite ?app_nil_r.
Qed.

Lemma write_property_loop_frame (c : cls) (l : list Property.t) (f : TextIO)
    (v : option (list (option string))) :
  for_ l (write_property repr m c enums) (f, v)
  = r ← for_ l (write_property repr m c enums) ([], v); Ok ((f ++ r.1)%list, r.2).
Proof.
  revert f v. induction l as [|a l IH]; intros f v.
  - simpl. by rewrite app_nil_r.
  - cbn [for_]. rewrite write_property_frame.
    destruct (write_property repr m c enums a ([], v)) as [[f1 v1]| |]; rsimpl; [|done..].
    simpl. rewrite (IH (f ++ f1)%list), (IH f1).
    destruct (for_ l (write_property repr m c enums) ([], v1)) as [[f2 v2]| |];
      rsimpl; [|done..].
    simpl. by rewrite app_assoc.
Qed.

Lemma write_properties_frame (c : cls) (f : TextIO) :
  write_properties repr m c f enums
  = out ← write_properties repr m c [] enums; Ok (f ++ out)%list.
Proof.
  assert (forall r : result (TextIO * option (list (option string))),
            (r ≫= fun r => Ok ((f ++ r.1)%list, r.2)) ≫= (fun '(f0, _) => Ok f0)
            = (r ≫= fun '(f0, _) => Ok f0) ≫= fun out : TextIO => Ok (f ++ out)%list)
    as Hassoc by (by intros [[f1 v1]| |]).
  unfold write_properties. rewrite (write_property_loop_frame c _ f). apply Hassoc.
Qed.

Lemma write_properties_loop (keys : list cls) (f : TextIO) :
  for_ keys (fun c f => write_properties repr m c f enums) f
  = outs ← mapM (fun c => write_properties repr m c [] enums) keys;
    Ok (f ++ List.concat outs)%list.
Proof.
  revert f. induction keys as [|k keys IH]; intros f.
  - simpl. by rewrite app_nil_r.
  - cbn [for_ mapM]. rewrite write_properties_frame.
    destruct (write_properties repr m k [] enums) as [out| |]; rsimpl; [|done..].
    rewrite IH. destruct (mapM _ keys) as [outs| |]; rsimpl; [|done..].
    simpl. by rewrite app_assoc.
Qed.

Lemma write_subsets_frame (c : cls) (f : TextIO) :
  write_subsets m c f = (f ++ write_subsets m c [])%list.
Proof.
  unfold write_subsets.
  assert (forall (a : Property.t) (slots : list Slot.t) (f0 : TextIO),
            foldl (fun f1 slot =>
                     if bool_decide (Slot.definingFeature_name slot = Some "subsets")
                     then write f1 (Class.name (m c) ++ "." ++ str (Slot.value slot)
                                    ++ ".subsets.add(" ++ Class.name (m c) ++ "."
                                    ++ str (Property.name a)
                                    ++ ")  # type: ignore[attr-defined]" ++ nl)
                     else f1) f0 slots
            = (f0 ++ foldl (fun f1 slot =>
                     if bool_decide (Slot.definingFeature_name slot = Some "subsets")
                     then write f1 (Class.name (m c) ++ "." ++ str (Slot.value slot)
                                    ++ ".subsets.add(" ++ Class.name (m c) ++ "."
                                    ++ str (Property.name a)
                                    ++ ")  # type: ignore[attr-defined]" ++ nl)
                     else f1) [] slots)%list) as Hslots.
  { intros a slots. induction slots as [|s slots IH]; intros f0; simpl.
    - by rewrite app_nil_r.
    - case_bool_decide; [|apply IH]. rewrite IH, (IH (write [] _)).
      unfold write. simpl. by rewrite <- app_assoc. }
  revert f. induction (Class.attribute (m c)) as [|a l IH]; intros f; simpl.
  - by rewrite app_nil_r.
  - rewrite IH, (IH (foldl _ [] _)), Hslots. by rewrite app_assoc.
Qed.

Lemma write_subsets_loop (keys : list cls) (f : TextIO) :
  foldl (fun f c => write_subsets m c f) f keys
  = (f ++ List.concat (map (fun c => write_subsets m c []) keys))%list.
Proof.
  revert f. induction keys as [|k keys IH]; intros f; simpl.
  - by rewrite app_nil_r.
  - rewrite IH, (write_subsets_frame k f). by rewrite app_assoc.
Qed.

End Frame.

(** X10: the file that [generate] writes is, in this order, the header,
    the import lines of the kept UML classes, the class definitions, two line
    ends, the property lines of the kept classes and their subsets lines,
    class after class in the order of the keys; the last two are written from
    the model in which the attributes of the kept classes have been sorted by
    name, in place. *)
Theorem generate_output (lookup_element : string -> bool) (repr : string -> string)
    (fuel : nat) (m : Model) (classes : list cls) (f : TextIO) :
  generate lookup_element repr fuel m classes = Ok f ->
  exists cs enums order defs props,
    select_classes m classes = Ok (cs, enums) /\
    class_defs m (create_class_hierarchy m cs) order = Ok defs /\
    mapM (fun c => write_properties repr
                     (sorted_model m (dict_keys (create_class_hierarchy m cs))) c [] enums)
         (dict_keys (create_class_hierarchy m cs)) = Ok props /\
    f = ([header] ++ map (import_line m) (filter_uml_classes lookup_element m cs)
         ++ defs ++ [(nl ++ nl)%string] ++ List.concat props
         ++ List.concat (map (fun c => write_subsets
                                (sorted_model m (dict_keys (create_class_hierarchy m cs))) c [])
                             (dict_keys (create_class_hierarchy m cs))))%list /\
    Forall (fun c => Class.attribute
                       (sorted_model m (dict_keys (create_class_hierarchy m cs)) c)
                     = sorted name_or_empty (Class.attribute (m c)))
           (dict_keys (create_class_hierarchy m cs)).
Proof.
  unfold generate. intros Hrun.
  apply bind_Ok in Hrun as ([cs enums] & Hsel & Hrun). cbv beta iota zeta in Hrun.
  fold (classes_loop fuel (create_class_hierarchy m cs)) in Hrun.
  apply bind_Ok in Hrun as ([[m1 f1] W1] & Hloop & Hrun).
  apply bind_Ok in Hrun as (f2 & Hprops & Hrun). inversion Hrun; subst f; clear Hrun.
  pose proof (classes_loop_model _ _ _ _ _ _ _ _ _ Hloop) as ->.
  apply (classes_loop_emits _ _ m) in Hloop as (_ & batches & Hemits & _);
    [|apply same_classes_refl].
  destruct Hemits as ((defs & Hdefs & ->) & _).
  rewrite write_properties_loop in Hprops.
  apply bind_Ok in Hprops as (props & Hmap & Hprops). inversion Hprops; subst f2; clear Hprops.
  exists cs, enums, (List.concat batches), defs, props.
  split; [done|]. split; [done|]. split; [done|]. split.
  - rewrite write_subsets_loop.
    change (fun f c => write f (_ ++ Class.name (m c) ++ nl))
      with (fun f c => write f (import_line m c)).
    rewrite (foldl_write (import_line m)). unfold write. simpl.
    by rewrite <- !app_assoc.
  - apply Forall_forall. intros c Hc. rewrite sorted_model_attribute.
    by rewrite decide_True.
Qed.

Lemma generate_output_witness :
  exists cs enums order defs props,
    select_classes demo [0; 1; 2; 3; 4] = Ok (cs, enums) /\
    class_defs demo (create_class_hierarchy demo cs) order = Ok defs /\
    mapM (fun c => write_properties simple_repr
                     (sorted_model demo (dict_keys (create_class_hierarchy demo cs))) c []
                     enums)
         (dict_keys (create_class_hierarchy demo cs)) = Ok props.
Proof.
  destruct (generate_output is_uml simple_repr 3 demo [0; 1; 2; 3; 4] demo_output eq_refl)
    as (cs & enums & order & defs & props & Hsel & Hdefs & Hprops & _).
  by exists cs, enums, order, defs, props.
Defined.

(** ** When [generate] returns *)







(** ** Declared and defined attributes *)

Lemma write_property_lines (repr : string -> string) (m : Model) (c : cls)
    (enums : gmap string cls) (a : Property.t) (f f' : TextIO)
    (v v' : option (list (option string))) :
  write_property repr m c enums a (f, v) = Ok (f', v') ->
  exists out, f' = (f ++ out)%list /\
              List.length out = match attribute_entry m a with Some _ => 1 | None => 0 end.
Proof.
  unfold write_property, attribute_entry. destruct (skipped a).
  { intros [= <- <-]. exists []. by rewrite app_nil_r. }
  destruct (type_converter m a) as [tv| |]; rsimpl; [|done..].
  destruct (bool_decide (tv = "int") || bool_decide (tv = "str")) eqn:Hplain.
  { intros [= <- <-]. eexists. split; [reflexivity|].
    apply orb_true_iff in Hplain as [->%bool_decide_eq_true| ->%bool_decide_eq_true]; done. }
  destruct (truthy (Some tv)); simpl.
  - destruct (contains "Kind" tv).
    + destruct (match enums !! tv with
                | Some enum => Some (map Property.name (Class.attribute (m enum)))
                | None => v
                end) as [[|v0 vs]|]; [done| |done].
      intros [= <- <-]. by eexists.
    + intros [= <- <-]. by eexists.
  - intros [= <- <-]. exists []. by rewrite app_nil_r.
Qed.

(** X12: when [write_properties] returns it has written one line for each
    attribute of the class that is named, not named baseClass, not derived
    and of a type with a non-empty name: the attributes that
    [write_attributes] declares in the body of the class are the ones that
    get a definition. *)
Theorem write_properties_lines (repr : string -> string) (m : Model) (c : cls)
    (enums : gmap string cls) (f f' : TextIO) :
  write_properties repr m c f enums = Ok f' ->
  exists out,
    f' = (f ++ out)%list /\
    List.length out
    = List.length (filter (fun a => is_Some (attribute_entry m a)) (Class.attribute (m c))).
Proof.
  unfold write_properties. intros Hrun.
  apply bind_Ok in Hrun as ([f1 v1] & Hloop & [= <-]).
  revert Hloop. generalize (@None (list (option string))). revert f.
  induction (Class.attribute (m c)) as [|a l IH]; intros f v Hloop.
  - inversion Hloop; subst. exists []. by rewrite app_nil_r.
  - cbn [for_] in Hloop. apply bind_Ok in Hloop as ([f0 v0] & Hstep & Hloop).
    apply write_property_lines in Hstep as (out0 & -> & Hlen0).
    apply IH in Hloop as (out & -> & Hlen).
    exists (out0 ++ out)%list. split; [by rewrite app_assoc|].
    rewrite length_app, Hlen0, Hlen. destruct (attribute_entry m a) as [e|] eqn:He.
    + rewrite filter_cons_True by (by rewrite He). done.
    + rewrite filter_cons_False by (rewrite He; by intros [? ?]). done.
Qed.

Lemma write_properties_lines_witness :
  exists f' out,
    write_properties simple_repr demo 4 [] ∅ = Ok f' /\ f' = ([] ++ out)%list /\
    List.length out
    = List.length (filter (fun a => is_Some (attribute_entry demo a))
                          (Class.attribute (demo 4))).
Proof.
  eexists.
  destruct (write_properties_lines simple_repr demo 4 ∅ [] _ eq_refl) as (out & Hout & Hlen).
  exists out. split; [reflexivity|]. split; [exact Hout|exact Hlen].
Defined.

(** ** The fork node item on and off the canvas *)

Lemma remove_constraints_frame (cs : list ConstraintObj) (w : World) :
  self (foldl (fun w c => remove_constraint c w) w cs) = self w /\
  next_id (foldl (fun w c => remove_constraint c w) w cs) = next_id w.
Proof.
  revert w. induction cs as [|c cs IH]; intros w; simpl; [done|].
  by destruct (IH (remove_constraint c w)) as [-> ->].
Qed.

(** X13: on top of what the method of the base class does,
    [teardown_canvas] removes from the solver the constraints the item holds,
    and no other; it leaves the item as it is: the list of constraints the
    item holds is never emptied. *)
Theorem teardown_canvas_removes (Item_teardown_canvas : World -> World) (w : World) :
  let w0 := Item_teardown_canvas w in
  let w' := teardown_canvas Item_teardown_canvas w in
  self w' = self w0 /\ next_id w' = next_id w0 /\
  solver_constraints w'
  = filter (fun c => c.1 ∉ (_constraints (self w0)).*1) (solver_constraints w0).
Proof.
  cbv zeta. unfold teardown_canvas.
  destruct (remove_constraints_frame (_constraints (self (Item_teardown_canvas w)))
                                     (Item_teardown_canvas w)) as [Hself Hnext].
  split; [done|]. split; [done|]. apply remove_constraints.
Qed.



(** ** The join specification *)

(** X15: [set_join_spec] does nothing to an item whose subject is not a
    join node; for a join node it stores one text, never empty, as the value
    of the join specification and as the text of the item, the default for
    an empty value; setting the same value again changes nothing; and after
    it the join specification is visible exactly when the value given was
    neither empty nor the default. *)
Theorem set_join_spec_visible (v : option string) (w : World) :
  let w' := set_join_spec v w in
  ((forall j, subject (self w) ≠ Some (JoinNode j)) -> w' = w) /\
  (forall j, subject (self w) = Some (JoinNode j) ->
     exists t, truthy (Some t) = true /\
               t = (if truthy v then default DEFAULT_JOIN_SPEC v else DEFAULT_JOIN_SPEC) /\
               _join_spec_text (self w') = Some t /\
               subject (self w') = Some (JoinNode (Some (mkLiteralSpecification (Some t)))) /\
               _handles (self w') = _handles (self w) /\
               _constraints (self w') = _constraints (self w) /\
               solver_constraints w' = solver_constraints w /\
               is_join_spec_visible (self w')
               = truthy v && negb (bool_decide (v = Some DEFAULT_JOIN_SPEC))) /\
  set_join_spec v w' = w'.
Proof.
  cbv zeta. unfold set_join_spec. split; [|split].
  - intros Hj. destruct (subject (self w)) as [[|j]|]; [done| |done]. by destruct (Hj j).
  - intros j ->. destruct v as [[|a s]|]; simpl.
    + by exists DEFAULT_JOIN_SPEC.
    + exists (String a s). repeat (split; [done|]). reflexivity.
    + by exists DEFAULT_JOIN_SPEC.
  - destruct (subject (self w)) as [[|j]|] eqn:Hs; simpl; rewrite ?Hs; done.
Qed.

Lemma set_join_spec_visible_witness :
  is_join_spec_visible (self (set_join_spec (Some "or") fork_world)) = true.
Proof.
  destruct (set_join_spec_visible (Some "or") fork_world) as (_ & Hjoin & _).
  destruct (Hjoin None eq_refl) as (t & _ & _ & _ & _ & _ & _ & _ & ->).
  reflexivity.
Defined.
